(** * account_manager: a shallow embedding of [account_manager.py]

    The development follows the Python module top-down: the gateway
    functions (the HTTP calls), the card model [UserCard] with its status
    transitions, the account model [UserAccount], and the orchestrator
    [AccountManager] with its fetch and cancellation paths.

    Conventions.
    - Identifiers (user ids, card ids, rail ids, account ids) are strings.
      They are taken to be well-formed UUIDs: pydantic's UUID validation is
      not modelled.
    - The outside world is a [Gateway]: for every remote call it gives the
      answer as a function of the calls made so far (the log) and of the
      call's arguments.  Every remote call appends one [event] to the log.
    - Every remote call is answered, by an HTTP error (the [HTTPError]
      branch of the Python function) or by a body of the expected shape.
      A request that gets no answer (a timeout, a refused connection) and
      a body that is not the expected JSON raise past every handler of
      the module; such runs are outside the model, and a statement that a
      function returns is to be read for the runs inside it.
    - JSON answers are typed the way the code reads them: a field read with
      [x['f']] is a record field, a field read with [x.get('f', None)] is an
      [option].  A card of a card listing carries a status and a type among
      those of [UserCard]: pydantic's validation of them is not modelled.
    - Python exceptions that the code's own logic can raise are values of
      [exn]; a computation is a function from the log to a [result] and the
      new log.
    - A Python [dict] is an association list in insertion order, a Python
      list that is mutated while it is shared is a list addressed by
      position. *)

From Stdlib Require Import String List Arith Bool Lia.
From Stdlib Require Import Permutation.
From Equations Require Import Equations.
Import ListNotations.
Open Scope string_scope.
Open Scope list_scope.

Set Implicit Arguments.

(** ** Card statuses and types *)

Inductive card_status : Set :=
| ACTIVATED_NO_PIN
| ACTIVE
| BROKEN
| CANCELED
| CREATED
| DEACTIVATED
| DELETED
| FROZEN
| FROZEN_PERMANENT
| LOST
| REORDERED_KLAYUDA
| SHIPPED
| STOLEN.

Inductive card_type : Set := PHYSICAL | VIRTUAL.

(** [card_targets = Literal['ACTIVE', 'FROZEN', 'FROZEN_PERMANENT']] *)
Inductive card_targets : Set := T_ACTIVE | T_FROZEN | T_FROZEN_PERMANENT.

Definition card_status_eqb (a b : card_status) : bool :=
  match a, b with
  | ACTIVATED_NO_PIN, ACTIVATED_NO_PIN | ACTIVE, ACTIVE | BROKEN, BROKEN
  | CANCELED, CANCELED | CREATED, CREATED | DEACTIVATED, DEACTIVATED
  | DELETED, DELETED | FROZEN, FROZEN | FROZEN_PERMANENT, FROZEN_PERMANENT
  | LOST, LOST | REORDERED_KLAYUDA, REORDERED_KLAYUDA | SHIPPED, SHIPPED
  | STOLEN, STOLEN => true
  | _, _ => false
  end.

Definition card_type_eqb (a b : card_type) : bool :=
  match a, b with
  | PHYSICAL, PHYSICAL | VIRTUAL, VIRTUAL => true
  | _, _ => false
  end.

(** ** JSON answers of the backend services *)

(** One entry of [account_providers['accounts']]. *)
Record account_entry : Set := mk_account_entry {
  providerId : option string;
  internalId : option string
}.

(** One entry of the card listing. *)
Record card_entry : Set := mk_card_entry {
  ce_id : string;
  ce_status : card_status;
  ce_cardType : card_type
}.

(** One entry of the [isEnabled] answer. *)
Record enabled_entry : Set := mk_enabled_entry {
  ee_customerId : string;
  ee_active : bool
}.

(** ** Remote calls *)

Inductive event : Set :=
| EvCheckAccountProviders (user_id : string) (res : option (list account_entry))
| EvCheckCards (parabilium_internal_id : option string)
               (res : option (list card_entry))
| EvUpdateCardStatus (klrid : string) (target_status : card_targets) (ok : bool)
| EvDeleteVirtualCard (klrid : string) (ok : bool)
| EvIsEnabled (batch : list string) (res : option (list enabled_entry))
| EvLockMobileAccess (user_id : string) (ok : bool)
| EvBlockSpei (user_id : string) (spei_internal_id : string) (ok : bool).

Definition Log := list event.

(** The backend: each answer may depend on every call made before.  [None]
    and [false] stand for the [HTTPError] branch of the Python function. *)
Record Gateway : Type := mk_gateway {
  gw_account_providers : Log -> string -> option (list account_entry);
  gw_cards : Log -> option string -> option (list card_entry);
  gw_update_card_status : Log -> string -> card_targets -> bool;
  gw_delete_virtual_card : Log -> string -> bool;
  gw_is_enabled : Log -> list string -> option (list enabled_entry);
  gw_lock_mobile_access : Log -> string -> bool;
  gw_block_spei : Log -> string -> string -> bool
}.

(** ** Computations: a log, and exceptions *)

Inductive exn : Set :=
| KeyError
| ValidationError
| AttributeError
| ZeroDivisionError
| ValueError.

Inductive result (A : Type) : Type :=
| Ok (a : A)
| Raise (e : exn).
Arguments Ok {A} a.
Arguments Raise {A} e.

Definition M (A : Type) : Type := Log -> result A * Log.

Definition ret {A} (a : A) : M A := fun log => (Ok a, log).

Definition raise {A} (e : exn) : M A := fun log => (Raise e, log).

Definition bind {A B} (m : M A) (k : A -> M B) : M B :=
  fun log =>
    match m log with
    | (Ok a, log') => k a log'
    | (Raise e, log') => (Raise e, log')
    end.

Declare Scope py_scope.
Delimit Scope py_scope with py.
Notation "x <- m ;; k" := (bind m (fun x => k))
  (at level 100, m at next level, right associativity) : py_scope.
Notation "m ;;; k" := (bind m (fun _ => k))
  (at level 100, right associativity) : py_scope.
Open Scope py_scope.

(** One remote call: ask the gateway, log the call with its answer. *)
Definition call {A} (answer : Log -> A) (ev : A -> event) : M A :=
  fun log => let a := answer log in (Ok a, log ++ [ev a]).

Section Calls.
Variable g : Gateway.

Definition check_account_providers (user_id : string)
  : M (option (list account_entry)) :=
  call (fun log => gw_account_providers g log user_id)
       (EvCheckAccountProviders user_id).

Definition check_cards (parabilium_internal_id : option string)
  : M (option (list card_entry)) :=
  call (fun log => gw_cards g log parabilium_internal_id)
       (EvCheckCards parabilium_internal_id).

Definition update_card_status (klrid : string) (target_status : card_targets)
  : M bool :=
  call (fun log => gw_update_card_status g log klrid target_status)
       (EvUpdateCardStatus klrid target_status).

Definition delete_virtual_card (klrid : string) : M bool :=
  call (fun log => gw_delete_virtual_card g log klrid)
       (EvDeleteVirtualCard klrid).

Definition is_enabled (batch : list string)
  : M (option (list enabled_entry)) :=
  call (fun log => gw_is_enabled g log batch) (EvIsEnabled batch).

Definition block_mobile_access (user_id : string) : M bool :=
  call (fun log => gw_lock_mobile_access g log user_id)
       (EvLockMobileAccess user_id).

Definition block_spei (user_id spei_internal_id : string) : M bool :=
  call (fun log => gw_block_spei g log user_id spei_internal_id)
       (EvBlockSpei user_id spei_internal_id).
End Calls.

(** ** [UserCard] *)

Record UserCard : Set := mk_UserCard {
  card_user_id : option string;
  klrid : string;
  card_status_of : card_status;
  card_type_of : card_type
}.

Definition set_card_status (self : UserCard) (s : card_status) : UserCard :=
  {| card_user_id := card_user_id self;
     klrid := klrid self;
     card_status_of := s;
     card_type_of := card_type_of self |}.

Section CardTransitions.
Variable g : Gateway.

(** [UserCard.delete] *)
Definition delete (self : UserCard) : M UserCard :=
  if card_type_eqb (card_type_of self) VIRTUAL then
    was_deleted <- delete_virtual_card g (klrid self) ;;
    if was_deleted : bool then ret (set_card_status self CANCELED)
    else ret self
  else ret self.

(** [UserCard.frozen_permanent] *)
Definition frozen_permanent (self : UserCard) : M UserCard :=
  successful <- update_card_status g (klrid self) T_FROZEN_PERMANENT ;;
  if successful : bool then ret (set_card_status self FROZEN_PERMANENT)
  else ret self.

(** [UserCard.frozen] *)
Definition frozen (self : UserCard) : M UserCard :=
  successful <- update_card_status g (klrid self) T_FROZEN ;;
  if successful : bool then ret (set_card_status self FROZEN)
  else ret self.

(** [UserCard.active] *)
Definition active (self : UserCard) : M UserCard :=
  successful <- update_card_status g (klrid self) T_ACTIVE ;;
  if successful : bool then ret (set_card_status self ACTIVE)
  else ret self.

(** [UserCard.cancel] *)
Definition cancel (self : UserCard) : M UserCard :=
  if card_type_eqb (card_type_of self) VIRTUAL then delete self
  else frozen_permanent self.
End CardTransitions.

(** ** Python containers *)

(** [x in l] for a list of status literals. *)
Definition status_in (s : card_status) (l : list card_status) : bool :=
  existsb (card_status_eqb s) l.

(** [l.remove(x)]: drops the first item equal to [x]; [None] is Python's
    [ValueError] when there is none. *)
Fixpoint list_remove (x : string) (l : list string) : option (list string) :=
  match l with
  | [] => None
  | y :: t =>
      if String.eqb y x then Some t
      else match list_remove x t with
           | Some t' => Some (y :: t')
           | None => None
           end
  end.

(** [l[i] = x] for a position that exists. *)
Fixpoint list_set {A} (l : list A) (i : nat) (x : A) : list A :=
  match l, i with
  | [], _ => []
  | _ :: t, 0 => x :: t
  | y :: t, S j => y :: list_set t j x
  end.

Section Dict.
Variable V : Type.

(** A [dict] with string keys, in insertion order. *)
Definition dict : Type := list (string * V).

(** [d[k] = v]: an existing key keeps its place. *)
Fixpoint dict_set (d : dict) (k : string) (v : V) : dict :=
  match d with
  | [] => [(k, v)]
  | (k', v') :: rest =>
      if String.eqb k' k then (k, v) :: rest
      else (k', v') :: dict_set rest k v
  end.

(** [d[k]]; [None] is Python's [KeyError]. *)
Fixpoint dict_get (d : dict) (k : string) : option V :=
  match d with
  | [] => None
  | (k', v') :: rest => if String.eqb k' k then Some v' else dict_get rest k
  end.

Definition dict_keys (d : dict) : list string := map fst d.

Definition dict_values (d : dict) : list V := map snd d.

(** [d.update(other)] *)
Definition dict_update (d other : dict) : dict :=
  fold_left (fun acc kv => dict_set acc (fst kv) (snd kv)) other d.
End Dict.

(** [for x in l: s = body(x, s)] *)
Fixpoint for_each {A S} (body : A -> S -> M S) (l : list A) (s : S) : M S :=
  match l with
  | [] => ret s
  | x :: rest => s' <- body x s ;; for_each body rest s'
  end.

Definition inspect {A} (a : A) : {b : A | a = b} := exist _ a eq_refl.

(** ** [UserAccount] *)

Record UserAccount : Set := mk_UserAccount {
  user_id : string;
  parabilium_account_id : string;
  active_spei : list string;
  has_mobile_access : option bool;
  cards : list UserCard
}.

Definition set_has_mobile_access (user : UserAccount) (b : option bool)
  : UserAccount :=
  {| user_id := user_id user;
     parabilium_account_id := parabilium_account_id user;
     active_spei := active_spei user;
     has_mobile_access := b;
     cards := cards user |}.

Definition set_active_spei (user : UserAccount) (l : list string)
  : UserAccount :=
  {| user_id := user_id user;
     parabilium_account_id := parabilium_account_id user;
     active_spei := l;
     has_mobile_access := has_mobile_access user;
     cards := cards user |}.

Definition set_cards (user : UserAccount) (cs : list UserCard) : UserAccount :=
  {| user_id := user_id user;
     parabilium_account_id := parabilium_account_id user;
     active_spei := active_spei user;
     has_mobile_access := has_mobile_access user;
     cards := cs |}.

(** The literal list of both [check_active_services] and
    [get_active_cards]. *)
Definition active_statuses : list card_status :=
  [ACTIVE; FROZEN; ACTIVATED_NO_PIN; CREATED; SHIPPED].

(** The answer of [check_active_services]. *)
Record services : Set := mk_services {
  sv_user_id : string;
  sv_has_mobile_access : option bool;
  sv_has_active_spei : bool;
  sv_has_active_cards : bool
}.

(** The [for ... break] loop of [check_active_services]. *)
Fixpoint has_active_cards_loop (cs : list UserCard) : bool :=
  match cs with
  | [] => false
  | card :: rest =>
      if status_in (card_status_of card) active_statuses then true
      else has_active_cards_loop rest
  end.

(** [UserAccount.check_active_services] *)
Definition check_active_services (self : UserAccount) : services :=
  {| sv_user_id := user_id self;
     sv_has_mobile_access := has_mobile_access self;
     sv_has_active_spei := Nat.ltb 0 (length (active_spei self));
     sv_has_active_cards := has_active_cards_loop (cards self) |}.

(** The cards of an account are objects shared between [self.cards] and the
    list that [get_active_cards] returns: a card object is named by its
    position in [self.cards]. *)
Fixpoint get_active_cards_from (pos : nat) (cs : list UserCard) : list nat :=
  match cs with
  | [] => []
  | card :: rest =>
      if status_in (card_status_of card) active_statuses
      then pos :: get_active_cards_from (S pos) rest
      else get_active_cards_from (S pos) rest
  end.

(** [UserAccount.get_active_cards]: the references, in order. *)
Definition get_active_cards (self : UserAccount) : list nat :=
  get_active_cards_from 0 (cards self).

(** The card objects behind a list of references. *)
Definition deref (cs : list UserCard) (refs : list nat) : list UserCard :=
  flat_map (fun r => match nth_error cs r with
                     | Some card => [card]
                     | None => []
                     end) refs.

(** ** [AccountManager] *)

(** [self.users].  It is declared [Dict[str, UserAccount]], but
    [create_user_instance_batch] also stores the [None] of a failed fetch
    in it, so a value is an [option]. *)
Definition Users : Type := dict (option UserAccount).

Definition opt_string_eqb (a b : option string) : bool :=
  match a, b with
  | Some x, Some y => String.eqb x y
  | None, None => true
  | _, _ => false
  end.

Section CheckMobileAccess.
Variable g : Gateway.

(** The [try] block of [check_mobile_access] for one batch: on success
    every entry of the answer is stored under its own [customerId], on
    failure every user of the batch is stored as [None]. *)
Definition check_mobile_access_batch (current_batch : list string)
    (results : dict (option bool)) : M (dict (option bool)) :=
  res <- is_enabled g current_batch ;;
  match res with
  | Some entries =>
      ret (fold_left
             (fun r entry => dict_set r (ee_customerId entry)
                                        (Some (ee_active entry)))
             entries results)
  | None =>
      ret (fold_left (fun r user => dict_set r user None)
                     current_batch results)
  end.

(** [while current_batch := list(islice(users, batch_size))]: [users] is
    what the iterator has left. *)
Equations? check_mobile_access_loop (batch_size : nat) (users : list string)
    (results : dict (option bool)) (log : Log)
    : result (dict (option bool)) * Log by wf (length users) lt :=
  check_mobile_access_loop batch_size users results log with inspect
      (firstn batch_size users) := {
    | exist _ [] _ => (Ok results, log)
    | exist _ (u :: b) Hbatch =>
        match check_mobile_access_batch (u :: b) results log with
        | (Ok results', log') =>
            check_mobile_access_loop batch_size (skipn batch_size users)
                                     results' log'
        | (Raise e, log') => (Raise e, log')
        end }.
Proof.
  destruct batch_size as [|n]; [discriminate|].
  destruct users as [|x xs]; [discriminate|].
  rewrite length_skipn. simpl. lia.
Qed.

(** [AccountManager.check_mobile_access].  [batch_size] is a natural
    number; with a negative one [islice] raises before any request. *)
Definition check_mobile_access (user_id : list string) (batch_size : nat)
  : M (dict (option bool)) :=
  check_mobile_access_loop batch_size user_id [].
End CheckMobileAccess.

Section Fetch.
Variable g : Gateway.

(** The inner [for account in account_providers['accounts']] loop; the
    state is [(parabilium_internal_id, spei)]. *)
Definition scan_account (st : option string * list string)
    (account : account_entry) : option string * list string :=
  let provider := providerId account in
  let spei :=
    if opt_string_eqb provider (Some "SPEI"%string) then
      match internalId account with
      | Some spei_internal_id => snd st ++ [spei_internal_id]
      | None => snd st
      end
    else snd st in
  let parabilium_internal_id :=
    if opt_string_eqb provider (Some "PARABILIUM"%string)
    then internalId account
    else fst st in
  (parabilium_internal_id, spei).

Definition scan_accounts (accounts : list account_entry)
  : option string * list string :=
  fold_left scan_account accounts (Some "not_found"%string, []).

(** [UserCard(user_id=user, klrid=card['id'], card_status=card['status'],
    card_type=card['cardType'])], for a listing entry that passes the
    validation of these fields. *)
Definition make_card (user : string) (card : card_entry) : UserCard :=
  {| card_user_id := Some user;
     klrid := ce_id card;
     card_status_of := ce_status card;
     card_type_of := ce_cardType card |}.

(** The body of the [for user in user_id] loop of
    [create_user_instance].  [mobile_access[user]] is evaluated while the
    arguments of [UserAccount(...)] are built, so its [KeyError] comes
    before the validation of [parabilium_account_id: str]. *)
Definition create_user_instance_body (mobile_access : dict (option bool))
    (user : string) (instances : Users) : M Users :=
  account_providers <- check_account_providers g user ;;
  match account_providers with
  | None => ret (dict_set instances user None)
  | Some accounts =>
      let parabilium_internal_id := fst (scan_accounts accounts) in
      let spei := snd (scan_accounts accounts) in
      cards <- (if opt_string_eqb parabilium_internal_id
                                  (Some "not_found"%string)
                then ret (Some [])
                else check_cards g parabilium_internal_id) ;;
      match cards with
      | None => ret (dict_set instances user None)
      | Some cards =>
          let user_cards := map (make_card user) cards in
          match dict_get mobile_access user with
          | None => raise KeyError
          | Some mobile =>
              match parabilium_internal_id with
              | None => raise ValidationError
              | Some account_id =>
                  ret (dict_set instances user
                         (Some {| user_id := user;
                                  parabilium_account_id := account_id;
                                  active_spei := spei;
                                  has_mobile_access := mobile;
                                  cards := user_cards |}))
              end
          end
      end
  end.

(** [AccountManager.create_user_instance]: the entitlement lookup runs
    with its default [batch_size] of 10. *)
Definition create_user_instance (user_id : list string) : M Users :=
  mobile_access <- check_mobile_access g user_id 10 ;;
  for_each (create_user_instance_body mobile_access) user_id [].

(** [AccountManager.create_user_instances] *)
Definition create_user_instances (chunk : list string) : M Users :=
  create_user_instance chunk.

(** [[list(islice(user_id_, batch_size)) for _ in range(n)]] *)
Fixpoint islice_chunks (n batch_size : nat) (user_id_ : list string)
  : list (list string) :=
  match n with
  | 0 => []
  | S n' => firstn batch_size user_id_
            :: islice_chunks n' batch_size (skipn batch_size user_id_)
  end.

(** [pool_.map(f, chunks)]: the answers come back in the order of the
    chunks.  The workers are run one after the other, which is the
    schedule of a pool of one process; how calls of different workers
    interleave in time is not modelled. *)
Fixpoint pool_map {A B} (f : A -> M B) (chunks : list A) : M (list B) :=
  match chunks with
  | [] => ret []
  | c :: rest =>
      r <- f c ;;
      rs <- pool_map f rest ;;
      ret (r :: rs)
  end.

(** [AccountManager.create_user_instance_batch]: gives the list of
    per-chunk dictionaries and the new [self.users]. *)
Definition create_user_instance_batch (users : Users)
    (user_id : list string) (batch_size n_process : nat)
  : M (list Users * Users) :=
  if Nat.eqb batch_size 0 then raise ZeroDivisionError
  else
    let chunks :=
      islice_chunks ((length user_id + batch_size - 1) / batch_size)
                    batch_size user_id in
    if Nat.eqb n_process 0 then raise ValueError
    else
      results <- pool_map create_user_instances chunks ;;
      ret (results, fold_left (@dict_update _) results users).

(** [AccountManager.refresh_all_data]: the dictionary that
    [create_user_instance] returns is dropped. *)
Definition refresh_all_data (users : Users) : M unit :=
  let users_to_refresh := dict_keys users in
  if Nat.ltb 0 (length users_to_refresh) then
    create_user_instance users_to_refresh ;;; ret tt
  else ret tt.
End Fetch.

Section Cancellation.
Variable g : Gateway.

(** Python truth value of an [Optional[bool]]. *)
Definition truthy (b : option bool) : bool :=
  match b with
  | Some true => true
  | _ => false
  end.

(** [AccountManager.block_mobile_user_account] *)
Definition block_mobile_user_account (user : UserAccount) : M UserAccount :=
  if truthy (has_mobile_access user) then
    was_blocked <- block_mobile_access g (user_id user) ;;
    if was_blocked : bool then ret (set_has_mobile_access user (Some false))
    else ret user
  else ret user.

(** [for spei_id in user.active_spei] with [user.active_spei.remove]
    inside: the list iterator holds a position [i] into the live list
    [spei] and stops when [i] is past its end. *)
Equations? block_spei_loop (user_id : string) (i : nat) (spei : list string)
    (log : Log) : result (list string) * Log by wf (length spei - i) lt :=
  block_spei_loop user_id i spei log with inspect (nth_error spei i) := {
    | exist _ None _ => (Ok spei, log)
    | exist _ (Some spei_id) Hnth
        with block_spei g user_id spei_id log := {
        | (Ok true, log') with inspect (list_remove spei_id spei) := {
            | exist _ (Some spei') Hrm =>
                block_spei_loop user_id (S i) spei' log'
            | exist _ None _ => (Raise ValueError, log') }
        | (Ok false, log') => block_spei_loop user_id (S i) spei log'
        | (Raise e, log') => (Raise e, log') } }.
Proof.
  - assert (Hi : i < length spei)
      by (apply nth_error_Some; congruence).
    assert (Hl : length spei' <= length spei).
    { clear - Hrm. revert spei' Hrm.
      induction spei as [|y t IH]; simpl; intros spei' H; [discriminate|].
      destruct (String.eqb y spei_id).
      - injection H as <-. lia.
      - destruct (list_remove spei_id t) as [t'|]; [|discriminate].
        injection H as <-. simpl. specialize (IH t' eq_refl). lia. }
    lia.
  - assert (Hi : i < length spei)
      by (apply nth_error_Some; congruence).
    lia.
Qed.

(** [AccountManager.block_spei_user_account] *)
Definition block_spei_user_account (user : UserAccount) : M UserAccount :=
  spei <- block_spei_loop (user_id user) 0 (active_spei user) ;;
  ret (set_active_spei user spei).

(** [card.cancel()] on the card object at position [ref]. *)
Definition cancel_ref (ref : nat) (cs : list UserCard)
  : M (list UserCard) :=
  match nth_error cs ref with
  | Some card => card' <- cancel g card ;; ret (list_set cs ref card')
  | None => ret cs
  end.

(** [AccountManager.block_cards_user_account] *)
Definition block_cards_user_account (user : UserAccount) : M UserAccount :=
  let active_cards := get_active_cards user in
  cs <- for_each cancel_ref active_cards (cards user) ;;
  ret (set_cards user cs).

(** [AccountManager.cancel_account] *)
Definition cancel_account (user : UserAccount) : M UserAccount :=
  user1 <- block_mobile_user_account user ;;
  user2 <- block_spei_user_account user1 ;;
  block_cards_user_account user2.

(** The [for user in all_users] loop of [block_all]: the records are
    changed in place, a [None] left by a failed batch fetch has no
    attribute [user_id].  When an exception is raised the model keeps the
    log but not the state of the records changed before it. *)
Fixpoint block_all_loop (all_users : Users) : M Users :=
  match all_users with
  | [] => ret []
  | (k, None) :: _ => raise AttributeError
  | (k, Some user) :: rest =>
      user' <- cancel_account user ;;
      rest' <- block_all_loop rest ;;
      ret ((k, Some user') :: rest')
  end.

(** [AccountManager.block_all]: gives the new [self.users]. *)
Definition block_all (refresh : bool) (users : Users) : M Users :=
  users' <- block_all_loop users ;;
  if refresh then refresh_all_data g users' ;;; ret users'
  else ret users'.

(** [AccountManager.get_services_summary] *)
Fixpoint get_services_summary (users : Users) : result (list services) :=
  match users with
  | [] => Ok []
  | (_, None) :: _ => Raise AttributeError
  | (_, Some user) :: rest =>
      match get_services_summary rest with
      | Ok summary => Ok (check_active_services user :: summary)
      | Raise e => Raise e
      end
  end.
End Cancellation.

(** ** Vocabulary of the specification *)

(** The "active" predicate in the words of the specification: a card is
    active iff its status is one of ACTIVE, FROZEN, ACTIVATED_NO_PIN,
    CREATED, SHIPPED. *)
Definition spec_active (s : card_status) : bool :=
  match s with
  | ACTIVE | FROZEN | ACTIVATED_NO_PIN | CREATED | SHIPPED => true
  | _ => false
  end.

Definition is_lock_mobile_event (ev : event) : bool :=
  match ev with EvLockMobileAccess _ _ => true | _ => false end.

Definition is_block_spei_event (ev : event) : bool :=
  match ev with EvBlockSpei _ _ _ => true | _ => false end.

Definition is_card_event (ev : event) : bool :=
  match ev with
  | EvUpdateCardStatus _ _ _ | EvDeleteVirtualCard _ _ => true
  | _ => false
  end.

Definition is_enabled_event (ev : event) : bool :=
  match ev with EvIsEnabled _ _ => true | _ => false end.

(** The users carried by an entitlement request. *)
Definition event_batch (ev : event) : list string :=
  match ev with EvIsEnabled batch _ => batch | _ => [] end.

(** What cancellation may do to one card, given the calls [evs] it made. *)
Definition card_cancelled (evs : list event) (card card' : UserCard) : Prop :=
  card_user_id card' = card_user_id card /\
  klrid card' = klrid card /\
  card_type_of card' = card_type_of card /\
  (card_status_of card' = card_status_of card \/
   (card_type_of card = VIRTUAL /\ card_status_of card' = CANCELED /\
    In (EvDeleteVirtualCard (klrid card) true) evs) \/
   (card_type_of card = PHYSICAL /\ card_status_of card' = FROZEN_PERMANENT /\
    In (EvUpdateCardStatus (klrid card) T_FROZEN_PERMANENT true) evs)).

(** The rail ids of a linking listing: the [internalId] of every entry
    tagged SPEI that has one, in listing order. *)
Definition listing_spei_ids (accounts : list account_entry) : list string :=
  flat_map (fun account =>
              if opt_string_eqb (providerId account) (Some "SPEI"%string)
              then match internalId account with
                   | Some spei_internal_id => [spei_internal_id]
                   | None => []
                   end
              else []) accounts.

(** The entitlement answers carry an entry for every user asked about. *)
Definition entitlement_covers (g : Gateway) : Prop :=
  forall h batch entries,
    gw_is_enabled g h batch = Some entries ->
    incl batch (map ee_customerId entries).

(** A remote call of the per-user part of a fetch. *)
Definition is_lookup_event (ev : event) : bool :=
  match ev with
  | EvCheckAccountProviders _ _ | EvCheckCards _ _ => true
  | _ => false
  end.

(** One cancellation step on a record: any of the three phases, or the
    whole workflow, from any log. *)
Inductive cancel_step (g : Gateway) (user user' : UserAccount) : Prop :=
| step_mobile log log' :
    block_mobile_user_account g user log = (Ok user', log') ->
    cancel_step g user user'
| step_spei log log' :
    block_spei_user_account g user log = (Ok user', log') ->
    cancel_step g user user'
| step_cards log log' :
    block_cards_user_account g user log = (Ok user', log') ->
    cancel_step g user user'
| step_cancel_account log log' :
    cancel_account g user log = (Ok user', log') ->
    cancel_step g user user'.

(** Any sequence of cancellation steps. *)
Inductive cancel_steps (g : Gateway) : UserAccount -> UserAccount -> Prop :=
| steps_nil user : cancel_steps g user user
| steps_cons user user' user'' :
    cancel_step g user user' ->
    cancel_steps g user' user'' ->
    cancel_steps g user user''.

(** ** Gateways and records used as concrete inputs *)

(** Every call succeeds; the listing links one rail and one card account,
    the card account holds a physical and a virtual card. *)
Definition gw_all_ok : Gateway :=
  {| gw_account_providers := fun _ _ =>
       Some [mk_account_entry (Some "SPEI"%string) (Some "r1"%string);
             mk_account_entry (Some "PARABILIUM"%string) (Some "a1"%string)];
     gw_cards := fun _ _ =>
       Some [mk_card_entry "c1" ACTIVE PHYSICAL;
             mk_card_entry "c2" FROZEN VIRTUAL];
     gw_update_card_status := fun _ _ _ => true;
     gw_delete_virtual_card := fun _ _ => true;
     gw_is_enabled := fun _ batch =>
       Some (map (fun u => mk_enabled_entry u true) batch);
     gw_lock_mobile_access := fun _ _ => true;
     gw_block_spei := fun _ _ _ => true |}.

(** As [gw_all_ok], but the identity lookup fails. *)
Definition gw_no_listing : Gateway :=
  {| gw_account_providers := fun _ _ => None;
     gw_cards := gw_cards gw_all_ok;
     gw_update_card_status := gw_update_card_status gw_all_ok;
     gw_delete_virtual_card := gw_delete_virtual_card gw_all_ok;
     gw_is_enabled := gw_is_enabled gw_all_ok;
     gw_lock_mobile_access := gw_lock_mobile_access gw_all_ok;
     gw_block_spei := gw_block_spei gw_all_ok |}.


(** As [gw_all_ok], but the listing names the rail "r1" twice. *)
Definition gw_repeated_rail : Gateway :=
  {| gw_account_providers := fun _ _ =>
       Some [mk_account_entry (Some "SPEI"%string) (Some "r1"%string);
             mk_account_entry (Some "SPEI"%string) (Some "r1"%string)];
     gw_cards := gw_cards gw_all_ok;
     gw_update_card_status := gw_update_card_status gw_all_ok;
     gw_delete_virtual_card := gw_delete_virtual_card gw_all_ok;
     gw_is_enabled := gw_is_enabled gw_all_ok;
     gw_lock_mobile_access := gw_lock_mobile_access gw_all_ok;
     gw_block_spei := gw_block_spei gw_all_ok |}.

(** The backend has moved on: the entitlement service reports the user as
    disabled and the listing shows a rail "r9", while locking the mobile
    access fails. *)
Definition gw_backend_differs : Gateway :=
  {| gw_account_providers := fun _ _ =>
       Some [mk_account_entry (Some "SPEI"%string) (Some "r9"%string)];
     gw_cards := gw_cards gw_all_ok;
     gw_update_card_status := gw_update_card_status gw_all_ok;
     gw_delete_virtual_card := gw_delete_virtual_card gw_all_ok;
     gw_is_enabled := fun _ batch =>
       Some (map (fun u => mk_enabled_entry u false) batch);
     gw_lock_mobile_access := fun _ _ => false;
     gw_block_spei := gw_block_spei gw_all_ok |}.


Definition two_rails : UserAccount :=
  {| user_id := "u1";
     parabilium_account_id := "a1";
     active_spei := ["r1"; "r2"]%string;
     has_mobile_access := Some true;
     cards := [] |}.

Definition physical_card : UserCard :=
  {| card_user_id := Some "u1"%string;
     klrid := "c1";
     card_status_of := ACTIVE;
     card_type_of := PHYSICAL |}.

Definition stored_u2 : UserAccount :=
  {| user_id := "u2";
     parabilium_account_id := "a2";
     active_spei := ["r7"%string];
     has_mobile_access := Some true;
     cards := [] |}.

Definition stored_u1 : UserAccount :=
  {| user_id := "u1";
     parabilium_account_id := "not_found";
     active_spei := [];
     has_mobile_access := Some true;
     cards := [] |}.

(** ** Vocabulary for the further properties *)

(** The rails named by the deactivation calls of a log, in call order. *)
Definition called_rails (evs : list event) : list string :=
  flat_map (fun ev => match ev with
                      | EvBlockSpei _ spei_internal_id _ => [spei_internal_id]
                      | _ => []
                      end) evs.

(** The rails whose deactivation call succeeded. *)
Definition blocked_rails (evs : list event) : list string :=
  flat_map (fun ev => match ev with
                      | EvBlockSpei _ spei_internal_id true =>
                          [spei_internal_id]
                      | _ => []
                      end) evs.

(** The items at positions 0, 2, 4, ... of a list. *)
Fixpoint evens {A} (l : list A) : list A :=
  match l with
  | [] => []
  | x :: t => x :: match t with
                   | [] => []
                   | _ :: t' => evens t'
                   end
  end.

(** The items at positions 1, 3, 5, ... of a list. *)
Fixpoint odds {A} (l : list A) : list A :=
  match l with
  | [] => []
  | _ :: t => match t with
              | [] => []
              | y :: t' => y :: odds t'
              end
  end.

(** As [gw_all_ok], but every rail deactivation is refused. *)
Definition gw_rails_refused : Gateway :=
  {| gw_account_providers := gw_account_providers gw_all_ok;
     gw_cards := gw_cards gw_all_ok;
     gw_update_card_status := gw_update_card_status gw_all_ok;
     gw_delete_virtual_card := gw_delete_virtual_card gw_all_ok;
     gw_is_enabled := gw_is_enabled gw_all_ok;
     gw_lock_mobile_access := gw_lock_mobile_access gw_all_ok;
     gw_block_spei := fun _ _ _ => false |}.

(** The cards named by the card calls of a log, in call order. *)
Definition called_cards (evs : list event) : list string :=
  flat_map (fun ev => match ev with
                      | EvUpdateCardStatus k _ _ => [k]
                      | EvDeleteVirtualCard k _ => [k]
                      | _ => []
                      end) evs.


Definition three_cards : UserAccount :=
  {| user_id := "u1";
     parabilium_account_id := "a1";
     active_spei := [];
     has_mobile_access := Some false;
     cards := [mk_UserCard (Some "u1"%string) "c1" ACTIVE PHYSICAL;
               mk_UserCard (Some "u1"%string) "c2" LOST PHYSICAL;
               mk_UserCard (Some "u1"%string) "c3" SHIPPED VIRTUAL] |}.

(** The records of a store, in order, and whether it holds a [None]. *)
Definition stored_records (users : Users) : list UserAccount :=
  flat_map (fun v => match v with
                     | Some user => [user]
                     | None => []
                     end) (dict_values users).

Definition holds_none (users : Users) : bool :=
  existsb (fun v => match v with
                    | Some _ => false
                    | None => true
                    end) (dict_values users).

(** What a fetch puts in a record of [user], given the entitlement
    dictionary it looked up first. *)
Definition fetched_record (g : Gateway) (mobile_access : dict (option bool))
    (user : string) (acct : UserAccount) : Prop :=
  user_id acct = user /\
  Forall (fun card => card_user_id card = Some user) (cards acct) /\
  dict_get mobile_access user = Some (has_mobile_access acct) /\
  exists h accounts,
    gw_account_providers g h user = Some accounts /\
    active_spei acct = listing_spei_ids accounts /\
    fst (scan_accounts accounts) = Some (parabilium_account_id acct) /\
    (parabilium_account_id acct = "not_found"%string -> cards acct = []) /\
    (parabilium_account_id acct <> "not_found"%string ->
     exists h' listing,
       gw_cards g h' (Some (parabilium_account_id acct)) = Some listing /\
       cards acct = map (make_card user) listing).

(** What a fetch writes under the key [user]: [None], or such a record. *)
Definition fetched_value (g : Gateway) (mobile_access : dict (option bool))
    (user : string) (v : option UserAccount) : Prop :=
  match v with
  | None => True
  | Some acct => fetched_record g mobile_access user acct
  end.

(** [d[k] = v] for every pair of a list, in order. *)
Definition dict_set_all {V} (d : dict V) (kvs : list (string * V)) : dict V :=
  fold_left (fun acc kv => dict_set acc (fst kv) (snd kv)) kvs d.

(** As [gw_all_ok], but the entitlement service is down. *)
Definition gw_entitlement_down : Gateway :=
  {| gw_account_providers := gw_account_providers gw_all_ok;
     gw_cards := gw_cards gw_all_ok;
     gw_update_card_status := gw_update_card_status gw_all_ok;
     gw_delete_virtual_card := gw_delete_virtual_card gw_all_ok;
     gw_is_enabled := fun _ _ => None;
     gw_lock_mobile_access := gw_lock_mobile_access gw_all_ok;
     gw_block_spei := gw_block_spei gw_all_ok |}.

(** As [gw_all_ok], but every listing holds one rail and nothing else. *)
Definition gw_rail_only : Gateway :=
  {| gw_account_providers := fun _ _ =>
       Some [mk_account_entry (Some "SPEI"%string) (Some "r1"%string)];
     gw_cards := gw_cards gw_all_ok;
     gw_update_card_status := gw_update_card_status gw_all_ok;
     gw_delete_virtual_card := gw_delete_virtual_card gw_all_ok;
     gw_is_enabled := gw_is_enabled gw_all_ok;
     gw_lock_mobile_access := gw_lock_mobile_access gw_all_ok;
     gw_block_spei := gw_block_spei gw_all_ok |}.

(** No entry of any linking listing is tagged PARABILIUM. *)
Definition no_card_processor (g : Gateway) : Prop :=
  forall h u accounts account,
    gw_account_providers g h u = Some accounts ->
    In account accounts ->
    providerId account <> Some "PARABILIUM"%string.

(** One status transition of a card, from any log. *)
Inductive card_step (g : Gateway) (card card' : UserCard) : Prop :=
| step_delete log log' :
    delete g card log = (Ok card', log') -> card_step g card card'
| step_frozen_permanent log log' :
    frozen_permanent g card log = (Ok card', log') -> card_step g card card'
| step_frozen log log' :
    frozen g card log = (Ok card', log') -> card_step g card card'
| step_active log log' :
    active g card log = (Ok card', log') -> card_step g card card'
| step_cancel log log' :
    cancel g card log = (Ok card', log') -> card_step g card card'.

(** Any sequence of status transitions. *)
Inductive card_steps (g : Gateway) : UserCard -> UserCard -> Prop :=
| card_steps_nil card : card_steps g card card
| card_steps_cons card card' card'' :
    card_step g card card' ->
    card_steps g card' card'' ->
    card_steps g card card''.

(** As [gw_all_ok], but the first entitlement request fails. *)
Definition gw_first_request_fails : Gateway :=
  {| gw_account_providers := gw_account_providers gw_all_ok;
     gw_cards := gw_cards gw_all_ok;
     gw_update_card_status := gw_update_card_status gw_all_ok;
     gw_delete_virtual_card := gw_delete_virtual_card gw_all_ok;
     gw_is_enabled := fun h batch =>
       match h with
       | [] => None
       | _ => gw_is_enabled gw_all_ok h batch
       end;
     gw_lock_mobile_access := gw_lock_mobile_access gw_all_ok;
     gw_block_spei := gw_block_spei gw_all_ok |}.

(** ** Vocabulary for the exact statements *)

(** The card phase in the words of the specification, card by card and in
    card order, from the log it starts with to the log it ends with: a
    card outside the active subset is left as it is and no call is made
    for it; for an active VIRTUAL card the delete call is made and the
    card is CANCELED exactly when the call succeeded; for an active
    PHYSICAL card the freeze-permanent call is made and the card is
    FROZEN_PERMANENT exactly when the call succeeded. *)
Inductive cards_cancelled (g : Gateway)
  : Log -> list UserCard -> list UserCard -> Log -> Prop :=
| cc_nil log : cards_cancelled g log [] [] log
| cc_inactive log card rest rest' log' :
    status_in (card_status_of card) active_statuses = false ->
    cards_cancelled g log rest rest' log' ->
    cards_cancelled g log (card :: rest) (card :: rest') log'
| cc_virtual log card ok rest rest' log' :
    status_in (card_status_of card) active_statuses = true ->
    card_type_of card = VIRTUAL ->
    gw_delete_virtual_card g log (klrid card) = ok ->
    cards_cancelled g (log ++ [EvDeleteVirtualCard (klrid card) ok])
                    rest rest' log' ->
    cards_cancelled g log (card :: rest)
      ((if ok then set_card_status card CANCELED else card) :: rest') log'
| cc_physical log card ok rest rest' log' :
    status_in (card_status_of card) active_statuses = true ->
    card_type_of card = PHYSICAL ->
    gw_update_card_status g log (klrid card) T_FROZEN_PERMANENT = ok ->
    cards_cancelled g
      (log ++ [EvUpdateCardStatus (klrid card) T_FROZEN_PERMANENT ok])
      rest rest' log' ->
    cards_cancelled g log (card :: rest)
      ((if ok then set_card_status card FROZEN_PERMANENT else card) :: rest')
      log'.

(** Records cancelled one after the other, each from the log that the
    cancellation of the one before it left. *)
Inductive cancelled_in_turn (g : Gateway)
  : Log -> list UserAccount -> list UserAccount -> Log -> Prop :=
| cit_nil log : cancelled_in_turn g log [] [] log
| cit_cons log user user' log1 rest rest' log2 :
    cancel_account g user log = (Ok user', log1) ->
    cancelled_in_turn g log1 rest rest' log2 ->
    cancelled_in_turn g log (user :: rest) (user' :: rest') log2.

(** No identity lookup of [user] among [evs]. *)
Definition no_lookup_of (user : string) (evs : list event) : Prop :=
  Forall (fun ev => forall res, ev <> EvCheckAccountProviders user res) evs.

(** What a fetch that started at [log] and ended at [log'] has written
    under [user], by the three assignments [instances[user] = ...] of the
    loop body.  The identity lookup is the last one of [user] in the run;
    its answer and the answer of the card lookup that follows it are the
    backend's at the very point of the call.  [None] is written when the
    identity lookup failed, or when it gave a listing and the card lookup
    for the account of that listing failed; a record is written with the
    user as its id and the rails of the listing, in listing order. *)
Inductive written_by_fetch (g : Gateway) (log log' : Log) (user : string)
  : option UserAccount -> Prop :=
| written_no_listing pre post :
    log' = (log ++ pre) ++ EvCheckAccountProviders user None :: post ->
    gw_account_providers g (log ++ pre) user = None ->
    no_lookup_of user post ->
    written_by_fetch g log log' user None
| written_no_cards pre post accounts :
    log' = (log ++ pre)
           ++ EvCheckAccountProviders user (Some accounts)
           :: EvCheckCards (fst (scan_accounts accounts)) None :: post ->
    gw_account_providers g (log ++ pre) user = Some accounts ->
    fst (scan_accounts accounts) <> Some "not_found"%string ->
    gw_cards g ((log ++ pre)
                  ++ [EvCheckAccountProviders user (Some accounts)])
             (fst (scan_accounts accounts)) = None ->
    no_lookup_of user post ->
    written_by_fetch g log log' user None
| written_record pre post accounts acct :
    log' = (log ++ pre)
           ++ EvCheckAccountProviders user (Some accounts) :: post ->
    gw_account_providers g (log ++ pre) user = Some accounts ->
    no_lookup_of user post ->
    user_id acct = user ->
    active_spei acct = listing_spei_ids accounts ->
    written_by_fetch g log log' user (Some acct).

(** The listing links two rails and a card account; every rail
    deactivation is refused. *)
Definition gw_two_rails_refused : Gateway :=
  {| gw_account_providers := fun _ _ =>
       Some [mk_account_entry (Some "SPEI"%string) (Some "r1"%string);
             mk_account_entry (Some "SPEI"%string) (Some "r2"%string);
             mk_account_entry (Some "PARABILIUM"%string) (Some "a1"%string)];
     gw_cards := gw_cards gw_all_ok;
     gw_update_card_status := gw_update_card_status gw_all_ok;
     gw_delete_virtual_card := gw_delete_virtual_card gw_all_ok;
     gw_is_enabled := gw_is_enabled gw_all_ok;
     gw_lock_mobile_access := gw_lock_mobile_access gw_all_ok;
     gw_block_spei := fun _ _ _ => false |}.

(** The record that a fetch of "u1" builds from [gw_two_rails_refused],
    and what [cancel_account] leaves of it. *)
Definition fetched_two_rails : UserAccount :=
  {| user_id := "u1";
     parabilium_account_id := "a1";
     active_spei := ["r1"; "r2"]%string;
     has_mobile_access := Some true;
     cards := [mk_UserCard (Some "u1"%string) "c1" ACTIVE PHYSICAL;
               mk_UserCard (Some "u1"%string) "c2" FROZEN VIRTUAL] |}.

Definition cancelled_two_rails : UserAccount :=
  {| user_id := "u1";
     parabilium_account_id := "a1";
     active_spei := ["r1"; "r2"]%string;
     has_mobile_access := Some false;
     cards := [mk_UserCard (Some "u1"%string) "c1" FROZEN_PERMANENT PHYSICAL;
               mk_UserCard (Some "u1"%string) "c2" CANCELED VIRTUAL] |}.

(** * Properties *)

(** ** The monad *)

Lemma bind_ok {A B} (m : M A) (k : A -> M B) log a log' :
  m log = (Ok a, log') -> bind m k log = k a log'.
Proof. intros H. unfold bind. rewrite H. reflexivity. Qed.

Lemma bind_raise {A B} (m : M A) (k : A -> M B) log e log' :
  m log = (Raise e, log') -> bind m k log = (Raise e, log').
Proof. intros H. unfold bind. rewrite H. reflexivity. Qed.

Lemma call_eq {A} (answer : Log -> A) (ev : A -> event) log :
  call answer ev log = (Ok (answer log), log ++ [ev (answer log)]).
Proof. reflexivity. Qed.

(** ** The active predicate (UserAccount) *)

Lemma status_in_active s : status_in s active_statuses = spec_active s.
Proof. destruct s; reflexivity. Qed.

Lemma has_active_cards_loop_existsb cs :
  has_active_cards_loop cs
  = existsb (fun card => spec_active (card_status_of card)) cs.
Proof.
  induction cs as [|card rest IH];
    cbn [has_active_cards_loop existsb]; [reflexivity|].
  rewrite status_in_active, IH.
  destruct (spec_active (card_status_of card)); reflexivity.
Qed.

Lemma deref_get_active_cards_from pre cs :
  deref (pre ++ cs) (get_active_cards_from (length pre) cs)
  = filter (fun card => spec_active (card_status_of card)) cs.
Proof.
  revert pre.
  induction cs as [|card rest IH]; intros pre;
    cbn [get_active_cards_from filter].
  - reflexivity.
  - rewrite status_in_active.
    assert (Hrest : deref (pre ++ card :: rest)
                      (get_active_cards_from (S (length pre)) rest)
                    = filter (fun c => spec_active (card_status_of c)) rest).
    { specialize (IH (pre ++ [card])).
      rewrite <- app_assoc in IH. simpl in IH.
      rewrite length_app in IH. simpl in IH.
      rewrite Nat.add_1_r in IH. exact IH. }
    destruct (spec_active (card_status_of card)).
    + unfold deref in *. simpl.
      rewrite nth_error_app2 by lia. rewrite Nat.sub_diag. simpl.
      f_equal. exact Hrest.
    + exact Hrest.
Qed.

(** C7. A card is active exactly when its status is ACTIVE, FROZEN,
    ACTIVATED_NO_PIN, CREATED or SHIPPED, so that DELETED and the seven
    other statuses are not; the cards behind [get_active_cards] are the
    account's cards filtered by this predicate, in order, and the
    [has_active_cards] field of [check_active_services] says whether some
    card of the account satisfies it. *)
Theorem active_predicate_exact :
  (forall s, status_in s active_statuses = true <->
             s = ACTIVE \/ s = FROZEN \/ s = ACTIVATED_NO_PIN \/
             s = CREATED \/ s = SHIPPED) /\
  (forall s, status_in s active_statuses = false <->
             s = DELETED \/ s = BROKEN \/ s = CANCELED \/ s = DEACTIVATED \/
             s = FROZEN_PERMANENT \/ s = LOST \/ s = REORDERED_KLAYUDA \/
             s = STOLEN) /\
  (forall self,
      deref (cards self) (get_active_cards self)
      = filter (fun card => status_in (card_status_of card) active_statuses)
               (cards self)) /\
  (forall self,
      sv_has_active_cards (check_active_services self)
      = existsb (fun card => status_in (card_status_of card) active_statuses)
                (cards self)).
Proof.
  split; [|split; [|split]].
  - intros s; split.
    + destruct s; simpl; intros H; try discriminate; tauto.
    + intros [H|[H|[H|[H|H]]]]; subst s; reflexivity.
  - intros s; split.
    + destruct s; simpl; intros H; try discriminate; tauto.
    + intros [H|[H|[H|[H|[H|[H|[H|H]]]]]]]; subst s; reflexivity.
  - intros self. unfold get_active_cards.
    rewrite (filter_ext _ (fun card => spec_active (card_status_of card)))
      by (intros a; apply status_in_active).
    exact (deref_get_active_cards_from [] (cards self)).
  - intros self. unfold check_active_services.
    cbn [sv_has_active_cards]. rewrite has_active_cards_loop_existsb.
    induction (cards self) as [|card rest IH]; cbn [existsb]; [reflexivity|].
    rewrite status_in_active, IH. reflexivity.
Qed.

(** ** The card transitions (UserCard) *)

(** C10. [delete] on a PHYSICAL card does nothing: it returns normally,
    the log of remote calls is the one it started from, and the card is
    the same in every field. *)
Theorem delete_physical_is_noop (g : Gateway) (self : UserCard) (log : Log) :
  card_type_of self = PHYSICAL ->
  delete g self log = (Ok self, log).
Proof.
  intros Hty. unfold delete. rewrite Hty. reflexivity.
Qed.

Lemma delete_physical_is_noop_witness :
  card_type_of physical_card = PHYSICAL /\
  delete gw_all_ok physical_card [] = (Ok physical_card, []).
Proof.
  split; [reflexivity|].
  apply (delete_physical_is_noop gw_all_ok physical_card []). reflexivity.
Defined.

Lemma cancel_spec (g : Gateway) (card : UserCard) (log : Log) :
  exists card' ev,
    cancel g card log = (Ok card', log ++ [ev]) /\
    is_card_event ev = true /\
    card_cancelled [ev] card card'.
Proof.
  destruct card as [u k s t].
  destruct t;
    unfold cancel, delete, frozen_permanent, bind, update_card_status,
      delete_virtual_card, call, ret; cbn.
  - destruct (gw_update_card_status g log k T_FROZEN_PERMANENT) eqn:E;
      eexists; eexists; (split; [reflexivity|]); (split; [reflexivity|]);
      unfold card_cancelled; cbn; intuition.
  - destruct (gw_delete_virtual_card g log k) eqn:E;
      eexists; eexists; (split; [reflexivity|]); (split; [reflexivity|]);
      unfold card_cancelled; cbn; intuition.
Qed.

Lemma card_cancelled_refl evs card : card_cancelled evs card card.
Proof. unfold card_cancelled. intuition. Qed.

Lemma card_cancelled_trans evs1 evs2 a b c :
  card_cancelled evs1 a b -> card_cancelled evs2 b c ->
  card_cancelled (evs1 ++ evs2) a c.
Proof.
  unfold card_cancelled.
  intros (Hu1 & Hk1 & Ht1 & Hs1) (Hu2 & Hk2 & Ht2 & Hs2).
  rewrite Hk1, Ht1 in Hs2.
  repeat split; try congruence.
  destruct Hs2 as [Hs2|[(Hty & Hst & Hin)|(Hty & Hst & Hin)]].
  - rewrite Hs2.
    destruct Hs1 as [Hs1|[(Hty & Hst & Hin)|(Hty & Hst & Hin)]].
    + left; exact Hs1.
    + right; left. repeat split; auto. apply in_or_app; left; exact Hin.
    + right; right. repeat split; auto. apply in_or_app; left; exact Hin.
  - right; left. repeat split; auto. apply in_or_app; right; exact Hin.
  - right; right. repeat split; auto. apply in_or_app; right; exact Hin.
Qed.

(** ** Lists and dictionaries *)

Lemma nth_error_list_set_ne {A} (l : list A) i j x :
  i <> j -> nth_error (list_set l i x) j = nth_error l j.
Proof.
  revert i j. induction l as [|y t IH]; intros [|i] [|j] H; simpl;
    try reflexivity; try congruence. apply IH. congruence.
Qed.

Lemma Forall2_list_set {A} (R : A -> A -> Prop) (l : list A) i x y :
  (forall a, R a a) -> nth_error l i = Some x -> R x y ->
  Forall2 R l (list_set l i y).
Proof.
  intros Hrefl. revert i.
  induction l as [|z t IH]; intros [|j] Hnth Hxy; simpl in *;
    try discriminate.
  - injection Hnth as ->. constructor; [exact Hxy|].
    clear - Hrefl. induction t; constructor; auto.
  - constructor; [apply Hrefl|]. eapply IH; eauto.
Qed.

Lemma Forall2_compose {A} (R1 R2 R3 : A -> A -> Prop) l1 l2 l3 :
  (forall a b c, R1 a b -> R2 b c -> R3 a c) ->
  Forall2 R1 l1 l2 -> Forall2 R2 l2 l3 -> Forall2 R3 l1 l3.
Proof.
  intros Hc H12. revert l3.
  induction H12 as [|a b t1 t2 Hab _ IH]; intros l3 H23;
    inversion H23; subst; constructor; eauto.
Qed.

Lemma list_remove_some x l i :
  nth_error l i = Some x -> exists l', list_remove x l = Some l'.
Proof.
  revert i. induction l as [|y t IH]; intros i H.
  - destruct i; discriminate.
  - simpl. destruct (String.eqb y x) eqn:E; [eauto|].
    destruct i as [|j]; simpl in H.
    + injection H as ->. rewrite String.eqb_refl in E. discriminate.
    + destruct (IH j H) as [t' ->]. eauto.
Qed.

Lemma list_remove_spec x l l' :
  list_remove x l = Some l' ->
  incl l' l /\ S (length l') = length l /\ (NoDup l -> NoDup l').
Proof.
  revert l'. induction l as [|y t IH]; simpl; intros l' H; [discriminate|].
  destruct (String.eqb y x).
  - injection H as <-. split; [|split].
    + apply incl_tl, incl_refl.
    + reflexivity.
    + intros Hnd. inversion Hnd; assumption.
  - destruct (list_remove x t) as [t'|]; [|discriminate].
    injection H as <-. destruct (IH t' eq_refl) as (Hi & Hl & Hn).
    split; [|split].
    + apply incl_cons; [left; reflexivity|]. apply incl_tl. exact Hi.
    + simpl. lia.
    + intros Hnd. inversion Hnd as [|? ? Hnotin Hnd']; subst.
      constructor; [|auto]. intros Hin. apply Hnotin. apply Hi. exact Hin.
Qed.

(** ** The cancellation phases (AccountManager) *)

Lemma block_mobile_user_account_spec (g : Gateway) user log :
  block_mobile_user_account g user log =
  if truthy (has_mobile_access user) then
    (Ok (if gw_lock_mobile_access g log (user_id user)
         then set_has_mobile_access user (Some false) else user),
     log ++ [EvLockMobileAccess (user_id user)
               (gw_lock_mobile_access g log (user_id user))])
  else (Ok user, log).
Proof.
  unfold block_mobile_user_account.
  destruct (truthy (has_mobile_access user)); [|reflexivity].
  unfold bind, block_mobile_access. rewrite call_eq.
  destruct (gw_lock_mobile_access g log (user_id user)); reflexivity.
Qed.

Lemma block_spei_loop_eq (g : Gateway) uid i spei log :
  block_spei_loop g uid i spei log =
  match nth_error spei i with
  | None => (Ok spei, log)
  | Some spei_id =>
      let ok := gw_block_spei g log uid spei_id in
      let log' := log ++ [EvBlockSpei uid spei_id ok] in
      if ok then
        match list_remove spei_id spei with
        | Some spei' => block_spei_loop g uid (S i) spei' log'
        | None => (Raise ValueError, log')
        end
      else block_spei_loop g uid (S i) spei log'
  end.
Proof.
  funelim (block_spei_loop g uid i spei log);
    repeat match goal with
           | H : nth_error _ _ = _ |- _ => rewrite H
           | H : Ok _ = Raise _ |- _ => discriminate H
           | H : Ok _ = Ok _ |- _ => injection H as H; rewrite H
           | H : list_remove _ _ = _ |- _ => rewrite H
           end; reflexivity.
Qed.

(** The rail loop always returns: the list it leaves is drawn from the one
    it started with, and it makes rail-deactivation calls only. *)
Lemma block_spei_loop_spec (g : Gateway) uid n :
  forall i spei log,
    length spei - i <= n ->
    exists spei' evs,
      block_spei_loop g uid i spei log = (Ok spei', log ++ evs) /\
      incl spei' spei /\ length spei' <= length spei /\
      (NoDup spei -> NoDup spei') /\
      forallb is_block_spei_event evs = true.
Proof.
  induction n as [|n IH]; intros i spei log Hn;
    rewrite block_spei_loop_eq;
    destruct (nth_error spei i) as [spei_id|] eqn:Hnth.
  - assert (i < length spei) by (apply nth_error_Some; congruence). lia.
  - exists spei, []. rewrite app_nil_r.
    repeat split; auto using incl_refl.
  - assert (Hi : i < length spei) by (apply nth_error_Some; congruence).
    cbn zeta.
    destruct (gw_block_spei g log uid spei_id) eqn:Hok.
    + destruct (list_remove_some _ _ Hnth) as [spei1 Hrm]. rewrite Hrm.
      destruct (list_remove_spec _ _ Hrm) as (Hincl & Hlen & Hnd).
      destruct (IH (S i) spei1 (log ++ [EvBlockSpei uid spei_id true]))
        as (spei' & evs & Heq & Hincl' & Hlen' & Hnd' & Hev); [lia|].
      exists spei', (EvBlockSpei uid spei_id true :: evs).
      rewrite Heq, <- app_assoc. repeat split; auto.
      * eapply incl_tran; eauto.
      * lia.
    + destruct (IH (S i) spei (log ++ [EvBlockSpei uid spei_id false]))
        as (spei' & evs & Heq & Hincl' & Hlen' & Hnd' & Hev); [lia|].
      exists spei', (EvBlockSpei uid spei_id false :: evs).
      rewrite Heq, <- app_assoc. repeat split; auto.
  - exists spei, []. rewrite app_nil_r.
    repeat split; auto using incl_refl.
Qed.

Lemma block_spei_user_account_spec (g : Gateway) user log :
  exists spei' evs,
    block_spei_user_account g user log
    = (Ok (set_active_spei user spei'), log ++ evs) /\
    incl spei' (active_spei user) /\
    length spei' <= length (active_spei user) /\
    (NoDup (active_spei user) -> NoDup spei') /\
    forallb is_block_spei_event evs = true.
Proof.
  destruct (block_spei_loop_spec g (user_id user)
              (n := length (active_spei user)) 0 (active_spei user) log)
    as (spei' & evs & Heq & H); [lia|].
  exists spei', evs. split; [|exact H].
  unfold block_spei_user_account.
  rewrite (bind_ok _ _ _ Heq). reflexivity.
Qed.

Lemma for_each_cancel_ref_spec (g : Gateway) :
  forall refs cs log,
    exists cs' evs,
      for_each (cancel_ref g) refs cs log = (Ok cs', log ++ evs) /\
      forallb is_card_event evs = true /\
      Forall2 (card_cancelled evs) cs cs' /\
      (forall i, ~ In i refs -> nth_error cs' i = nth_error cs i).
Proof.
  induction refs as [|r rest IH]; intros cs log.
  - exists cs, []. simpl. unfold ret. rewrite app_nil_r.
    repeat split; auto.
    clear. induction cs; constructor; auto using card_cancelled_refl.
  - cbn [for_each]. unfold cancel_ref at 1.
    destruct (nth_error cs r) as [card|] eqn:Hnth.
    + destruct (cancel_spec g card log) as (card' & ev & Hc & Hev & Hrel).
      destruct (IH (list_set cs r card') (log ++ [ev]))
        as (cs' & evs & Heq & Hevs & Hall & Hout).
      exists cs', (ev :: evs).
      split; [|split; [|split]].
      * unfold bind at 1. unfold bind at 1. rewrite Hc. unfold ret at 1.
        rewrite Heq, <- app_assoc. reflexivity.
      * simpl. rewrite Hev, Hevs. reflexivity.
      * change (ev :: evs) with ([ev] ++ evs).
        apply Forall2_compose
          with (R1 := card_cancelled [ev]) (R2 := card_cancelled evs)
               (l2 := list_set cs r card').
        -- intros a b c. apply card_cancelled_trans.
        -- apply Forall2_list_set with (x := card);
             [apply card_cancelled_refl | exact Hnth | exact Hrel].
        -- exact Hall.
      * intros i Hi. rewrite Hout by (intros Hin; apply Hi; right; exact Hin).
        apply nth_error_list_set_ne. intros ->. apply Hi. left; reflexivity.
    + destruct (IH cs log) as (cs' & evs & Heq & Hevs & Hall & Hout).
      exists cs', evs.
      split; [unfold bind at 1; unfold ret at 1; exact Heq|].
      split; [exact Hevs|]. split; [exact Hall|].
      intros i Hi. apply Hout. intros Hin; apply Hi; right; exact Hin.
Qed.

Lemma get_active_cards_from_in pos cs i :
  In i (get_active_cards_from pos cs) ->
  exists card, pos <= i /\ nth_error cs (i - pos) = Some card /\
               status_in (card_status_of card) active_statuses = true.
Proof.
  revert pos. induction cs as [|c rest IH]; intros pos Hin;
    cbn [get_active_cards_from] in Hin; [contradiction|].
  assert (Hrest : In i (get_active_cards_from (S pos) rest) ->
                  exists card, pos <= i /\
                    nth_error (c :: rest) (i - pos) = Some card /\
                    status_in (card_status_of card) active_statuses = true).
  { intros H. destruct (IH _ H) as (card & Hle & Hnth & Hact).
    exists card. split; [lia|]. split; [|exact Hact].
    replace (i - pos) with (S (i - S pos)) by lia. exact Hnth. }
  destruct (status_in (card_status_of c) active_statuses) eqn:Hact;
    [|auto].
  destruct Hin as [<-|Hin]; [|auto].
  exists c. rewrite Nat.sub_diag. auto.
Qed.

Lemma block_cards_user_account_spec (g : Gateway) user log :
  exists cs' evs,
    block_cards_user_account g user log
    = (Ok (set_cards user cs'), log ++ evs) /\
    forallb is_card_event evs = true /\
    Forall2 (card_cancelled evs) (cards user) cs' /\
    (forall i card, nth_error (cards user) i = Some card ->
       status_in (card_status_of card) active_statuses = false ->
       nth_error cs' i = Some card).
Proof.
  destruct (for_each_cancel_ref_spec g (get_active_cards user) (cards user) log)
    as (cs' & evs & Heq & Hevs & Hall & Hout).
  exists cs', evs. split; [|split; [|split]]; auto.
  - unfold block_cards_user_account. rewrite (bind_ok _ _ _ Heq). reflexivity.
  - intros i card Hnth Hina. rewrite Hout; [exact Hnth|].
    intros Hin. apply get_active_cards_from_in in Hin.
    destruct Hin as (card0 & _ & Hnth0 & Hact).
    rewrite Nat.sub_0_r, Hnth in Hnth0. injection Hnth0 as <-. congruence.
Qed.

(** The whole workflow, phase by phase. *)
Lemma cancel_account_spec (g : Gateway) user log :
  exists spei' evs_spei cs' evs_cards,
    let revoked := truthy (has_mobile_access user)
                   && gw_lock_mobile_access g log (user_id user) in
    let evs_mobile :=
      if truthy (has_mobile_access user)
      then [EvLockMobileAccess (user_id user)
              (gw_lock_mobile_access g log (user_id user))]
      else [] in
    cancel_account g user log =
      (Ok {| user_id := user_id user;
             parabilium_account_id := parabilium_account_id user;
             active_spei := spei';
             has_mobile_access :=
               if revoked then Some false else has_mobile_access user;
             cards := cs' |},
       log ++ evs_mobile ++ evs_spei ++ evs_cards) /\
    incl spei' (active_spei user) /\
    length spei' <= length (active_spei user) /\
    (NoDup (active_spei user) -> NoDup spei') /\
    forallb is_block_spei_event evs_spei = true /\
    forallb is_card_event evs_cards = true /\
    Forall2 (card_cancelled evs_cards) (cards user) cs' /\
    (forall i card, nth_error (cards user) i = Some card ->
       status_in (card_status_of card) active_statuses = false ->
       nth_error cs' i = Some card).
Proof.
  pose proof (block_mobile_user_account_spec g user log) as Hm.
  set (user1 := if truthy (has_mobile_access user)
                   && gw_lock_mobile_access g log (user_id user)
                then set_has_mobile_access user (Some false) else user).
  set (evs_mobile := if truthy (has_mobile_access user)
                     then [EvLockMobileAccess (user_id user)
                             (gw_lock_mobile_access g log (user_id user))]
                     else []).
  assert (Hm' : block_mobile_user_account g user log
                = (Ok user1, log ++ evs_mobile)).
  { rewrite Hm. unfold user1, evs_mobile.
    destruct (truthy (has_mobile_access user)); simpl;
      [reflexivity | rewrite app_nil_r; reflexivity]. }
  destruct (block_spei_user_account_spec g user1 (log ++ evs_mobile))
    as (spei' & evs_spei & Hs & Hincl & Hlen & Hnd & Hevs).
  destruct (block_cards_user_account_spec g (set_active_spei user1 spei')
              ((log ++ evs_mobile) ++ evs_spei))
    as (cs' & evs_cards & Hc & Hevc & Hall & Hout).
  assert (Hfields : user_id user1 = user_id user /\
                    parabilium_account_id user1 = parabilium_account_id user /\
                    active_spei user1 = active_spei user /\
                    cards user1 = cards user).
  { unfold user1. destruct (_ && _); simpl; auto. }
  destruct Hfields as (Hf1 & Hf2 & Hf3 & Hf4).
  exists spei', evs_spei, cs', evs_cards. cbn zeta.
  split; [|rewrite <- Hf3, <- Hf4; repeat split; auto].
  unfold cancel_account.
  rewrite (bind_ok _ _ _ Hm'), (bind_ok _ _ _ Hs), Hc.
  rewrite <- !app_assoc. f_equal. f_equal.
  unfold set_cards, set_active_spei; cbn.
  rewrite Hf1, Hf2. f_equal.
  unfold user1. destruct (_ && _); reflexivity.
Qed.

Lemma filter_lock_of_spei evs :
  forallb is_block_spei_event evs = true ->
  filter is_lock_mobile_event evs = [].
Proof.
  induction evs as [|ev rest IH]; simpl; [reflexivity|].
  destruct ev; simpl; try discriminate. exact IH.
Qed.

Lemma filter_lock_of_cards evs :
  forallb is_card_event evs = true ->
  filter is_lock_mobile_event evs = [].
Proof.
  induction evs as [|ev rest IH]; simpl; [reflexivity|].
  destruct ev; simpl; try discriminate; exact IH.
Qed.

(** C1 (evaluation of the code). With two rails "r1" and "r2" and a
    backend that accepts every deactivation, the rail phase calls the
    backend for "r1" only: removing "r1" moves "r2" to the position the
    iterator has already passed, so "r2" is never deactivated and stays in
    the list. *)
Theorem block_spei_skips_rail_after_removal :
  active_spei two_rails = ["r1"; "r2"]%string /\
  block_spei_user_account gw_all_ok two_rails []
  = (Ok (set_active_spei two_rails ["r2"%string]),
     [EvBlockSpei "u1" "r1" true]).
Proof. split; reflexivity. Qed.

(** C5. After [cancel_account] the mobile flag is false when it was true
    and the revoke call succeeded, and is the flag of before otherwise;
    the revoke call is made once when the flag was true and not at all
    otherwise. *)
Theorem cancel_account_mobile_access (g : Gateway) (user : UserAccount)
    (log : Log) :
  exists user' evs,
    cancel_account g user log = (Ok user', log ++ evs) /\
    has_mobile_access user'
    = (if truthy (has_mobile_access user)
          && gw_lock_mobile_access g log (user_id user)
       then Some false
       else has_mobile_access user) /\
    filter is_lock_mobile_event evs
    = (if truthy (has_mobile_access user)
       then [EvLockMobileAccess (user_id user)
               (gw_lock_mobile_access g log (user_id user))]
       else []).
Proof.
  destruct (cancel_account_spec g user log)
    as (spei' & evs_spei & cs' & evs_cards & Heq & _ & _ & _ & Hevs & Hevc
        & _).
  cbn zeta in Heq.
  eexists. eexists. split; [exact Heq|]. cbn [has_mobile_access].
  split; [reflexivity|].
  rewrite !filter_app, (filter_lock_of_spei _ Hevs),
    (filter_lock_of_cards _ Hevc), !app_nil_r.
  destruct (truthy (has_mobile_access user)); reflexivity.
Qed.

(** C6. After [cancel_account] every rail id of the record was a rail id
    of the record before, and the list is not longer than before. *)
Theorem cancel_account_rails_shrink (g : Gateway) (user : UserAccount)
    (log : Log) :
  exists user' log',
    cancel_account g user log = (Ok user', log') /\
    incl (active_spei user') (active_spei user) /\
    length (active_spei user') <= length (active_spei user).
Proof.
  destruct (cancel_account_spec g user log)
    as (spei' & evs_spei & cs' & evs_cards & Heq & Hincl & Hlen & _).
  cbn zeta in Heq.
  eexists. eexists. split; [exact Heq|]. cbn [active_spei].
  split; assumption.
Qed.

(** ** Dictionaries *)

Lemma dict_get_set_eq {V} (d : dict V) k v :
  dict_get (dict_set d k v) k = Some v.
Proof.
  induction d as [|[k' v'] rest IH]; simpl.
  - rewrite String.eqb_refl. reflexivity.
  - destruct (String.eqb k' k) eqn:E; simpl.
    + rewrite String.eqb_refl. reflexivity.
    + rewrite E. exact IH.
Qed.

Lemma dict_get_set_ne {V} (d : dict V) k k' v :
  k <> k' -> dict_get (dict_set d k v) k' = dict_get d k'.
Proof.
  intros Hne. induction d as [|[k0 v0] rest IH]; simpl.
  - destruct (String.eqb k k') eqn:E; [|reflexivity].
    apply String.eqb_eq in E. contradiction.
  - destruct (String.eqb k0 k) eqn:E; simpl.
    + apply String.eqb_eq in E. subst k0.
      destruct (String.eqb k k') eqn:E'; [|reflexivity].
      apply String.eqb_eq in E'. contradiction.
    + rewrite IH. reflexivity.
Qed.

Lemma dict_get_set_defined {V} (d : dict V) k v u :
  u = k \/ dict_get d u <> None -> dict_get (dict_set d k v) u <> None.
Proof.
  destruct (String.eqb_spec k u) as [->|Hne].
  - intros _. rewrite dict_get_set_eq. discriminate.
  - intros [->|H]; [contradiction|].
    rewrite dict_get_set_ne by exact Hne. exact H.
Qed.

Lemma fold_dict_set_defined {X V} (key : X -> string) (val : X -> V) xs :
  forall (d : dict V) u,
    In u (map key xs) \/ dict_get d u <> None ->
    dict_get (fold_left (fun r x => dict_set r (key x) (val x)) xs d) u
    <> None.
Proof.
  induction xs as [|x rest IH]; intros d u H; simpl.
  - destruct H as [[]|H]; exact H.
  - apply IH. simpl in H.
    destruct H as [[H|H]|H]; [right|left; exact H|right].
    + apply dict_get_set_defined. left; symmetry; exact H.
    + apply dict_get_set_defined. right; exact H.
Qed.


Lemma dict_get_of_key {V} (d : dict V) k :
  In k (dict_keys d) -> exists v, dict_get d k = Some v.
Proof.
  induction d as [|[k' v'] rest IH]; simpl; intros Hin; [contradiction|].
  destruct (String.eqb k' k) eqn:E; [eauto|].
  destruct Hin as [->|Hin]; [|auto].
  rewrite String.eqb_refl in E. discriminate.
Qed.

(** ** The entitlement lookup (check_mobile_access) *)

Lemma ceil_div_step N B :
  0 < B -> 0 < N -> (N + B - 1) / B = S ((N - B + B - 1) / B).
Proof.
  intros HB HN.
  replace (N + B - 1) with ((N - 1) + 1 * B) by lia.
  rewrite Nat.div_add by lia.
  destruct (Nat.le_gt_cases N B) as [Hle|Hgt].
  - replace (N - B + B - 1) with (B - 1) by lia.
    rewrite !Nat.div_small by lia. reflexivity.
  - replace (N - B + B - 1) with (N - 1) by lia. lia.
Qed.

Lemma check_mobile_access_loop_eq (g : Gateway) batch_size users results log :
  check_mobile_access_loop g batch_size users results log =
  match firstn batch_size users with
  | [] => (Ok results, log)
  | u :: b =>
      match check_mobile_access_batch g (u :: b) results log with
      | (Ok results', log') =>
          check_mobile_access_loop g batch_size (skipn batch_size users)
                                   results' log'
      | (Raise e, log') => (Raise e, log')
      end
  end.
Proof.
  funelim (check_mobile_access_loop g batch_size users results log);
    match goal with
    | H : firstn _ _ = _ |- _ => rewrite H
    end; reflexivity.
Qed.

Lemma check_mobile_access_batch_spec (g : Gateway) batch results log :
  exists results',
    check_mobile_access_batch g batch results log
    = (Ok results', log ++ [EvIsEnabled batch (gw_is_enabled g log batch)]) /\
    (entitlement_covers g ->
     forall u, In u batch \/ dict_get results u <> None ->
               dict_get results' u <> None).
Proof.
  unfold check_mobile_access_batch, bind, is_enabled. rewrite call_eq.
  destruct (gw_is_enabled g log batch) as [entries|] eqn:E.
  - eexists. split; [reflexivity|].
    intros Hcov u Hu.
    apply (fold_dict_set_defined ee_customerId
             (fun entry => Some (ee_active entry))).
    destruct Hu as [Hu|Hu]; [left|right; exact Hu].
    exact (Hcov _ _ _ E u Hu).
  - eexists. split; [reflexivity|].
    intros _ u Hu.
    apply (fold_dict_set_defined (fun user : string => user)
             (fun _ => @None bool)).
    rewrite map_id. exact Hu.
Qed.

(** The lookup always returns; it makes one request per chunk. *)
Lemma check_mobile_access_loop_spec (g : Gateway) batch_size n :
  forall users results log,
    length users <= n ->
    exists results' evs,
      check_mobile_access_loop g batch_size users results log
      = (Ok results', log ++ evs) /\
      forallb is_enabled_event evs = true /\
      (0 < batch_size ->
       length evs = (length users + batch_size - 1) / batch_size /\
       flat_map event_batch evs = users /\
       (entitlement_covers g ->
        forall u, In u users \/ dict_get results u <> None ->
                  dict_get results' u <> None)).
Proof.
  induction n as [|n IH]; intros users results log Hn;
    rewrite check_mobile_access_loop_eq;
    destruct (firstn batch_size users) as [|u b] eqn:Hfirst.
  - exists results, []. rewrite app_nil_r.
    split; [reflexivity|]. split; [reflexivity|].
    intros HB. destruct users; [|simpl in Hn; lia].
    split; [cbn [length]; rewrite Nat.div_small by lia; reflexivity|].
    split; [reflexivity|]. intros _ u [[]|Hu]; exact Hu.
  - destruct users; [|simpl in Hn; lia].
    rewrite firstn_nil in Hfirst. discriminate.
  - exists results, []. rewrite app_nil_r.
    split; [reflexivity|]. split; [reflexivity|].
    intros HB. destruct batch_size; [lia|].
    destruct users; [|discriminate].
    split; [cbn [length]; rewrite Nat.div_small by lia; reflexivity|].
    split; [reflexivity|]. intros _ u [[]|Hu]; exact Hu.
  - assert (HB : 0 < batch_size)
      by (destruct batch_size; [discriminate|lia]).
    assert (Hne : 0 < length users)
      by (destruct users; [rewrite firstn_nil in Hfirst; discriminate
                          |simpl; lia]).
    destruct (check_mobile_access_batch_spec g (u :: b) results log)
      as (results1 & Hb & Hcov1).
    rewrite Hb.
    destruct (IH (skipn batch_size users) results1
                 (log ++ [EvIsEnabled (u :: b)
                            (gw_is_enabled g log (u :: b))]))
      as (results' & evs & Heq & Hevs & Hrest).
    { rewrite length_skipn. lia. }
    destruct (Hrest HB) as (Hlen & Hflat & Hcov).
    exists results',
      (EvIsEnabled (u :: b) (gw_is_enabled g log (u :: b)) :: evs).
    rewrite Heq, <- app_assoc.
    split; [reflexivity|]. split; [exact Hevs|].
    intros _. split; [|split].
    + cbn [length]. rewrite Hlen, length_skipn.
      symmetry. apply ceil_div_step; assumption.
    + cbn [flat_map event_batch]. rewrite Hflat, <- Hfirst.
      apply firstn_skipn.
    + intros Hc x Hx. apply (Hcov Hc).
      destruct Hx as [Hx|Hx].
      * rewrite <- (firstn_skipn batch_size users) in Hx.
        apply in_app_or in Hx. destruct Hx as [Hx|Hx]; [|left; exact Hx].
        right. apply (Hcov1 Hc). left. rewrite <- Hfirst. exact Hx.
      * right. apply (Hcov1 Hc). right. exact Hx.
Qed.

Lemma check_mobile_access_spec (g : Gateway) user_id batch_size log :
  exists results evs,
    check_mobile_access g user_id batch_size log = (Ok results, log ++ evs) /\
    forallb is_enabled_event evs = true /\
    (0 < batch_size ->
     length evs = (length user_id + batch_size - 1) / batch_size /\
     flat_map event_batch evs = user_id /\
     (entitlement_covers g ->
      forall u, In u user_id -> dict_get results u <> None)).
Proof.
  destruct (check_mobile_access_loop_spec g batch_size
              (n := length user_id) user_id [] log (le_n _))
    as (results & evs & Heq & Hevs & H).
  exists results, evs. split; [exact Heq|]. split; [exact Hevs|].
  intros HB. destruct (H HB) as (Hlen & Hflat & Hcov).
  repeat split; auto.
Qed.

(** ** The fetch (create_user_instance) *)

Lemma opt_string_eqb_eq a b : opt_string_eqb a b = true <-> a = b.
Proof.
  destruct a as [x|], b as [y|]; simpl; split; intros H;
    try discriminate; try reflexivity.
  - apply String.eqb_eq in H. congruence.
  - injection H as ->. apply String.eqb_refl.
Qed.

Lemma scan_accounts_fold_spei accounts :
  forall st,
    snd (fold_left scan_account accounts st)
    = snd st ++ listing_spei_ids accounts.
Proof.
  induction accounts as [|account rest IH]; intros st; simpl.
  - rewrite app_nil_r. reflexivity.
  - rewrite IH. unfold scan_account at 1. cbn [snd].
    destruct (opt_string_eqb (providerId account) (Some "SPEI"%string)).
    + destruct (internalId account); simpl.
      * rewrite <- app_assoc. reflexivity.
      * reflexivity.
    + reflexivity.
Qed.

Lemma scan_accounts_spei accounts :
  snd (scan_accounts accounts) = listing_spei_ids accounts.
Proof. unfold scan_accounts. rewrite scan_accounts_fold_spei. reflexivity. Qed.

(** One user of a fetch: either the user's entry is written, or the
    entitlement dictionary has no entry for the user, or the card account
    of the listing has no id. *)
Lemma create_user_instance_body_cases (g : Gateway) mobile_access user
    instances log :
  exists evs,
    forallb is_lookup_event evs = true /\
    ((exists v,
         create_user_instance_body g mobile_access user instances log
         = (Ok (dict_set instances user v), log ++ evs) /\
         forall acct, v = Some acct ->
           exists accounts,
             gw_account_providers g log user = Some accounts /\
             active_spei acct = listing_spei_ids accounts) \/
     (create_user_instance_body g mobile_access user instances log
      = (Raise KeyError, log ++ evs) /\
      dict_get mobile_access user = None) \/
     (create_user_instance_body g mobile_access user instances log
      = (Raise ValidationError, log ++ evs) /\
      exists accounts,
        gw_account_providers g log user = Some accounts /\
        fst (scan_accounts accounts) = None)).
Proof.
  unfold create_user_instance_body, bind, check_account_providers.
  rewrite call_eq.
  destruct (gw_account_providers g log user) as [accounts|] eqn:Hacc.
  2:{ eexists. split; [|left; exists None; split; [reflexivity|]].
      - reflexivity.
      - intros acct H; discriminate. }
  set (pid := fst (scan_accounts accounts)).
  assert (Hpid : fst (scan_accounts accounts) = pid) by reflexivity.
  clearbody pid.
  destruct (opt_string_eqb pid (Some "not_found"%string)) eqn:Hnf.
  - unfold ret at 1.
    destruct (dict_get mobile_access user) as [mobile|] eqn:Hmob.
    + apply opt_string_eqb_eq in Hnf. clear Hpid. subst pid.
      eexists. split; [|left; eexists; split; [reflexivity|]].
      * reflexivity.
      * intros acct H; injection H as <-. exists accounts.
        split; [reflexivity|]. apply scan_accounts_spei.
    + eexists. split; [|right; left; split; [reflexivity|reflexivity]].
      reflexivity.
  - unfold check_cards. rewrite call_eq.
    destruct (gw_cards g _ pid) as [cs|] eqn:Hcards.
    2:{ eexists. split; [|left; exists None; split;
                           [rewrite <- app_assoc; reflexivity|]].
        - reflexivity.
        - intros acct H; discriminate. }
    destruct (dict_get mobile_access user) as [mobile|] eqn:Hmob.
    + destruct pid as [account_id|].
      * eexists. split; [|left; eexists; split;
                             [rewrite <- app_assoc; reflexivity|]].
        -- reflexivity.
        -- intros acct H; injection H as <-. exists accounts.
           split; [reflexivity|]. apply scan_accounts_spei.
      * eexists. split; [|right; right; split;
                           [rewrite <- app_assoc; reflexivity|]].
        -- reflexivity.
        -- exists accounts. split; [reflexivity|exact Hpid].
    + eexists. split; [|right; left; split;
                         [rewrite <- app_assoc; reflexivity|reflexivity]].
      reflexivity.
Qed.



Lemma cancel_step_rails (g : Gateway) user user' :
  cancel_step g user user' ->
  NoDup (active_spei user) -> NoDup (active_spei user').
Proof.
  intros [log log' H|log log' H|log log' H|log log' H] Hnd.
  - rewrite block_mobile_user_account_spec in H.
    destruct (truthy (has_mobile_access user)).
    + destruct (gw_lock_mobile_access g log (user_id user));
        injection H as <- _; exact Hnd.
    + injection H as <- _; exact Hnd.
  - destruct (block_spei_user_account_spec g user log)
      as (spei' & evs & Heq & _ & _ & Hnd' & _).
    rewrite Heq in H. injection H as <- _. simpl. auto.
  - destruct (block_cards_user_account_spec g user log)
      as (cs' & evs & Heq & _).
    rewrite Heq in H. injection H as <- _. simpl. exact Hnd.
  - destruct (cancel_account_spec g user log)
      as (spei' & evs_spei & cs' & evs_cards & Heq & _ & _ & Hnd' & _).
    cbn zeta in Heq. rewrite Heq in H. injection H as <- _. simpl. auto.
Qed.

(** ** The store (self.users) *)

(** C2 (evaluation of the code). The store holds a record for "u2"; a
    batch fetch of "u2" whose identity lookup fails stores [None] under
    "u2": the record that was there is gone. *)
Theorem batch_fetch_failure_overwrites_entry :
  dict_get [("u2"%string, Some stored_u2)] "u2" = Some (Some stored_u2) /\
  create_user_instance_batch gw_no_listing [("u2"%string, Some stored_u2)]
                             ["u2"%string] 50 4 []
  = (Ok ([[("u2"%string, None)]], [("u2"%string, None)]),
     [EvIsEnabled ["u2"%string] (Some [mk_enabled_entry "u2" true]);
      EvCheckAccountProviders "u2" None]).
Proof. split; reflexivity. Qed.

(** The re-fetch of [block_all] never reaches the store: with and without
    it the store is left the same. *)
Lemma block_all_refresh_leaves_users (g : Gateway) users log users' log' :
  block_all g true users log = (Ok users', log') ->
  exists log1, block_all g false users log = (Ok users', log1).
Proof.
  unfold block_all, bind.
  destruct (block_all_loop g users log) as [[users1|e] log1];
    [|discriminate].
  unfold refresh_all_data, bind, ret.
  destruct (Nat.ltb 0 (length (dict_keys users1))).
  - destruct (create_user_instance g (dict_keys users1) log1)
      as [[fetched|e] log2]; [|discriminate].
    intros H; injection H as <- _. eauto.
  - intros H; injection H as <- _. eauto.
Qed.

(** C3 (evaluation of the code). The store holds a record for "u1" with
    mobile access and no rail.  The revoke call fails, so cancellation
    leaves the record as it is; the re-fetch then obtains a record without
    mobile access and with the rail "r9", and [block_all] still leaves the
    record of before in the store. *)
Theorem block_all_refresh_drops_fetched_state :
  block_all gw_backend_differs true [("u1"%string, Some stored_u1)] []
  = (Ok [("u1"%string, Some stored_u1)],
     [EvLockMobileAccess "u1" false;
      EvIsEnabled ["u1"%string] (Some [mk_enabled_entry "u1" false]);
      EvCheckAccountProviders "u1"
        (Some [mk_account_entry (Some "SPEI"%string) (Some "r9"%string)])]) /\
  fst (create_user_instance gw_backend_differs ["u1"%string]
         [EvLockMobileAccess "u1" false])
  = Ok [("u1"%string,
         Some {| user_id := "u1";
                 parabilium_account_id := "not_found";
                 active_spei := ["r9"%string];
                 has_mobile_access := Some false;
                 cards := [] |})].
Proof. split; reflexivity. Qed.

(** ** Chunks and keys of a fetch *)

Lemma islice_chunks_length n batch_size l :
  length (islice_chunks n batch_size l) = n.
Proof.
  revert l. induction n as [|n IH]; intros l; simpl; [reflexivity|].
  rewrite IH. reflexivity.
Qed.

Lemma islice_chunks_concat n batch_size :
  forall l, length l <= n * batch_size ->
            concat (islice_chunks n batch_size l) = l.
Proof.
  induction n as [|n IH]; intros l Hl; simpl.
  - destruct l; [reflexivity|simpl in Hl; lia].
  - rewrite IH; [apply firstn_skipn|].
    rewrite length_skipn. simpl in Hl. lia.
Qed.


Lemma ceil_div_covers N B : 0 < B -> N <= (N + B - 1) / B * B.
Proof.
  intros HB.
  pose proof (Nat.div_mod_eq (N + B - 1) B) as Hdm.
  pose proof (Nat.mod_upper_bound (N + B - 1) B) as Hlt.
  nia.
Qed.



(** ** Rail ids of a record *)

(** C9 (as stated, refuted). The listing of "u1" names the rail "r1" in
    two SPEI entries; the fetched record holds "r1" twice. *)
Lemma fetched_rails_repeated :
  exists instances log' acct,
    create_user_instance gw_repeated_rail ["u1"%string] []
    = (Ok instances, log') /\
    dict_get instances "u1" = Some (Some acct) /\
    ~ NoDup (active_spei acct).
Proof.
  eexists. eexists. eexists.
  split; [reflexivity|]. split; [reflexivity|].
  simpl. intros Hnd. inversion Hnd as [|? ? Hnotin _]; subst.
  apply Hnotin. left; reflexivity.
Qed.

(** * Further properties *)

(** ** The rail loop (block_spei_user_account) *)

Lemma list_remove_perm x l l' :
  list_remove x l = Some l' -> Permutation (x :: l') l.
Proof.
  revert l'. induction l as [|y t IH]; simpl; intros l' H; [discriminate|].
  destruct (String.eqb_spec y x) as [->|Hne].
  - injection H as <-. apply Permutation_refl.
  - destruct (list_remove x t) as [t'|]; [|discriminate].
    injection H as <-.
    eapply perm_trans; [apply perm_swap|].
    apply perm_skip. apply IH. reflexivity.
Qed.

Lemma list_remove_fresh_prefix x pre rest :
  ~ In x pre -> list_remove x (pre ++ x :: rest) = Some (pre ++ rest).
Proof.
  induction pre as [|y t IH]; simpl; intros Hn.
  - rewrite String.eqb_refl. reflexivity.
  - destruct (String.eqb_spec y x) as [->|Hne]; [tauto|].
    rewrite IH by tauto. reflexivity.
Qed.

(** What the rail loop does from position [i] on: the rails it leaves and
    the rails it removed make up the list it started from, and every
    successful call moves the end of the loop one step closer. *)
Lemma block_spei_loop_account (g : Gateway) uid n :
  forall i spei log,
    length spei - i <= n ->
    exists spei' evs,
      block_spei_loop g uid i spei log = (Ok spei', log ++ evs) /\
      Permutation (spei' ++ blocked_rails evs) spei /\
      incl (called_rails evs) spei /\
      Forall (fun ev => exists s ok, ev = EvBlockSpei uid s ok) evs /\
      (i <= length spei + 1 ->
       length spei <= i + length evs + length (blocked_rails evs) /\
       i + length evs + length (blocked_rails evs) <= length spei + 1).
Proof.
  induction n as [|n IH]; intros i spei log Hn;
    rewrite block_spei_loop_eq;
    destruct (nth_error spei i) as [spei_id|] eqn:Hnth.
  - assert (i < length spei) by (apply nth_error_Some; congruence). lia.
  - exists spei, []. rewrite !app_nil_r.
    split; [reflexivity|]. split; [apply Permutation_refl|].
    split; [intros x []|]. split; [constructor|].
    simpl. apply nth_error_None in Hnth. lia.
  - assert (Hi : i < length spei) by (apply nth_error_Some; congruence).
    assert (Hin : In spei_id spei) by (eapply nth_error_In; eauto).
    cbn zeta.
    destruct (gw_block_spei g log uid spei_id) eqn:Hok.
    + destruct (list_remove_some _ _ Hnth) as [spei1 Hrm]. rewrite Hrm.
      destruct (list_remove_spec _ _ Hrm) as (Hincl & Hlen & _).
      pose proof (list_remove_perm _ _ Hrm) as Hperm.
      destruct (IH (S i) spei1 (log ++ [EvBlockSpei uid spei_id true]))
        as (spei' & evs & Heq & Hp & Hc & Hu & Hcount); [lia|].
      exists spei', (EvBlockSpei uid spei_id true :: evs).
      rewrite Heq, <- app_assoc.
      split; [reflexivity|]. split; [|split; [|split]].
      * cbn [blocked_rails flat_map app].
        eapply perm_trans; [|exact Hperm].
        eapply perm_trans; [apply Permutation_sym, Permutation_middle|].
        apply perm_skip. exact Hp.
      * cbn [called_rails flat_map app].
        apply incl_cons; [exact Hin|].
        eapply incl_tran; [exact Hc|exact Hincl].
      * constructor; [eauto|exact Hu].
      * intros _. cbn [blocked_rails flat_map app length].
        fold (blocked_rails evs).
        destruct Hcount as [H1 H2]; lia.
    + destruct (IH (S i) spei (log ++ [EvBlockSpei uid spei_id false]))
        as (spei' & evs & Heq & Hp & Hc & Hu & Hcount); [lia|].
      exists spei', (EvBlockSpei uid spei_id false :: evs).
      rewrite Heq, <- app_assoc.
      split; [reflexivity|]. split; [|split; [|split]].
      * exact Hp.
      * cbn [called_rails flat_map app].
        apply incl_cons; [exact Hin|exact Hc].
      * constructor; [eauto|exact Hu].
      * intros _. cbn [blocked_rails flat_map app length].
        fold (blocked_rails evs).
        destruct Hcount as [H1 H2]; lia.
  - exists spei, []. rewrite !app_nil_r.
    split; [reflexivity|]. split; [apply Permutation_refl|].
    split; [intros x []|]. split; [constructor|].
    simpl. apply nth_error_None in Hnth. lia.
Qed.

(** X1. The rail phase changes nothing but [active_spei]; the rails it
    leaves together with the rails whose call succeeded are, up to order,
    the rails of before; it calls the backend only for rails of the record
    and only with the record's user id. *)
Theorem block_spei_user_account_removes_blocked (g : Gateway)
    (user : UserAccount) (log : Log) :
  exists spei' evs,
    block_spei_user_account g user log
    = (Ok (set_active_spei user spei'), log ++ evs) /\
    Permutation (spei' ++ blocked_rails evs) (active_spei user) /\
    incl (called_rails evs) (active_spei user) /\
    Forall (fun ev => exists s ok, ev = EvBlockSpei (user_id user) s ok) evs.
Proof.
  destruct (block_spei_loop_account g (user_id user)
              (n := length (active_spei user)) 0 (active_spei user) log)
    as (spei' & evs & Heq & Hp & Hc & Hu & _); [lia|].
  exists spei', evs. split; [|auto].
  unfold block_spei_user_account. rewrite (bind_ok _ _ _ Heq). reflexivity.
Qed.


Lemma skipn_nth_error {A} (l : list A) i x :
  nth_error l i = Some x -> skipn i l = x :: skipn (S i) l.
Proof.
  revert i. induction l as [|y t IH]; intros [|j] H; simpl in *;
    try discriminate.
  - injection H as ->. reflexivity.
  - apply IH. exact H.
Qed.

Lemma block_spei_loop_all_refused (g : Gateway) uid n :
  (forall h s, gw_block_spei g h uid s = false) ->
  forall i spei log,
    length spei - i <= n ->
    block_spei_loop g uid i spei log
    = (Ok spei, log ++ map (fun s => EvBlockSpei uid s false) (skipn i spei)).
Proof.
  intros Hno.
  induction n as [|n IH]; intros i spei log Hn;
    rewrite block_spei_loop_eq;
    destruct (nth_error spei i) as [spei_id|] eqn:Hnth.
  - assert (i < length spei) by (apply nth_error_Some; congruence). lia.
  - apply nth_error_None in Hnth. rewrite skipn_all2 by exact Hnth.
    simpl. rewrite app_nil_r. reflexivity.
  - assert (Hi : i < length spei) by (apply nth_error_Some; congruence).
    cbn zeta. rewrite Hno, IH by lia.
    rewrite (skipn_nth_error _ _ Hnth), <- app_assoc. reflexivity.
  - apply nth_error_None in Hnth. rewrite skipn_all2 by exact Hnth.
    simpl. rewrite app_nil_r. reflexivity.
Qed.

(** X3. When the backend refuses every deactivation for the user, the
    rail phase calls it once for every rail, in list order, and leaves the
    record as it was. *)
Theorem block_spei_user_account_all_refused (g : Gateway)
    (user : UserAccount) (log : Log) :
  (forall h s, gw_block_spei g h (user_id user) s = false) ->
  block_spei_user_account g user log
  = (Ok user,
     log ++ map (fun s => EvBlockSpei (user_id user) s false)
                (active_spei user)).
Proof.
  intros Hno. unfold block_spei_user_account.
  rewrite (bind_ok _ _ _
             (@block_spei_loop_all_refused g (user_id user)
                (length (active_spei user)) Hno 0 (active_spei user) log
                (Nat.le_sub_l _ _))).
  destruct user; reflexivity.
Qed.

Lemma block_spei_user_account_all_refused_witness :
  (forall h s, gw_block_spei gw_rails_refused h (user_id two_rails) s = false)
  /\ block_spei_user_account gw_rails_refused two_rails []
     = (Ok two_rails,
        [EvBlockSpei "u1" "r1" false; EvBlockSpei "u1" "r2" false]).
Proof.
  split; [reflexivity|].
  apply (@block_spei_user_account_all_refused gw_rails_refused two_rails []).
  reflexivity.
Defined.

Lemma block_spei_loop_all_accepted (g : Gateway) uid n :
  (forall h s, gw_block_spei g h uid s = true) ->
  forall rest pre log,
    length rest <= n ->
    NoDup (pre ++ rest) ->
    block_spei_loop g uid (length pre) (pre ++ rest) log
    = (Ok (pre ++ odds rest),
       log ++ map (fun s => EvBlockSpei uid s true) (evens rest)).
Proof.
  intros Hyes.
  assert (Hend : forall pre log,
             block_spei_loop g uid (length pre) (pre ++ []) log
             = (Ok (pre ++ []), log)).
  { intros pre log. rewrite block_spei_loop_eq.
    replace (nth_error (pre ++ []) (length pre)) with (@None string);
      [reflexivity|].
    symmetry. apply nth_error_None. rewrite app_nil_r. lia. }
  assert (Hstep : forall pre x rest log,
             NoDup (pre ++ x :: rest) ->
             block_spei_loop g uid (length pre) (pre ++ x :: rest) log
             = block_spei_loop g uid (S (length pre)) (pre ++ rest)
                 (log ++ [EvBlockSpei uid x true])).
  { intros pre x rest log Hnd. rewrite block_spei_loop_eq.
    rewrite nth_error_app2 by lia. rewrite Nat.sub_diag. cbn [nth_error].
    cbn zeta. rewrite Hyes.
    rewrite list_remove_fresh_prefix; [reflexivity|].
    apply NoDup_remove_2 in Hnd. intros Hin. apply Hnd.
    apply in_or_app; left; exact Hin. }
  induction n as [|n IH]; intros rest pre log Hn Hnd.
  - destruct rest; [|simpl in Hn; lia].
    rewrite Hend. simpl. rewrite !app_nil_r. reflexivity.
  - destruct rest as [|x [|y rest]].
    + rewrite Hend. simpl. rewrite !app_nil_r. reflexivity.
    + rewrite (Hstep _ _ _ _ Hnd).
      change (S (length pre)) with (S (length pre)).
      rewrite block_spei_loop_eq.
      replace (nth_error (pre ++ []) (S (length pre))) with (@None string);
        [reflexivity|].
      symmetry. apply nth_error_None. rewrite app_nil_r. lia.
    + rewrite (Hstep _ _ _ _ Hnd).
      assert (Hnd' : NoDup ((pre ++ [y]) ++ rest)).
      { rewrite <- app_assoc. exact (NoDup_remove_1 _ _ _ Hnd). }
      replace (S (length pre)) with (length (pre ++ [y]))
        by (rewrite length_app; simpl; lia).
      replace (pre ++ y :: rest) with ((pre ++ [y]) ++ rest)
        by (rewrite <- app_assoc; reflexivity).
      rewrite IH; [|simpl in Hn; lia|exact Hnd'].
      cbn [odds evens map]. rewrite <- !app_assoc. reflexivity.
Qed.

(** X4. When the backend accepts every deactivation for the user and the
    rails are pairwise distinct, the rail phase deactivates and removes
    the rails at positions 0, 2, 4, ... and never calls the backend for
    the rails at positions 1, 3, 5, ..., which stay in the record. *)
Theorem block_spei_user_account_all_accepted (g : Gateway)
    (user : UserAccount) (log : Log) :
  (forall h s, gw_block_spei g h (user_id user) s = true) ->
  NoDup (active_spei user) ->
  block_spei_user_account g user log
  = (Ok (set_active_spei user (odds (active_spei user))),
     log ++ map (fun s => EvBlockSpei (user_id user) s true)
                (evens (active_spei user))).
Proof.
  intros Hyes Hnd. unfold block_spei_user_account.
  pose proof (@block_spei_loop_all_accepted g (user_id user)
                (length (active_spei user)) Hyes
                (active_spei user) [] log (le_n _) Hnd) as H.
  cbn [app length] in H. rewrite (bind_ok _ _ _ H). reflexivity.
Qed.

Lemma block_spei_user_account_all_accepted_witness :
  (forall h s, gw_block_spei gw_all_ok h (user_id two_rails) s = true) /\
  NoDup (active_spei two_rails) /\
  block_spei_user_account gw_all_ok two_rails []
  = (Ok (set_active_spei two_rails ["r2"%string]),
     [EvBlockSpei "u1" "r1" true]).
Proof.
  assert (Hnd : NoDup (active_spei two_rails)).
  { repeat constructor; simpl; intuition discriminate. }
  split; [reflexivity|]. split; [exact Hnd|].
  apply (@block_spei_user_account_all_accepted gw_all_ok two_rails []).
  - reflexivity.
  - exact Hnd.
Defined.

(** ** The card phase (block_cards_user_account, cancel_account) *)

Lemma list_set_middle {A} (pre : list A) c rest c' :
  list_set (pre ++ c :: rest) (length pre) c' = pre ++ c' :: rest.
Proof.
  induction pre as [|y t IH]; simpl; [reflexivity|].
  rewrite IH. reflexivity.
Qed.



Lemma called_cards_of_spei evs :
  forallb is_block_spei_event evs = true -> called_cards evs = [].
Proof.
  induction evs as [|ev rest IH]; simpl; [reflexivity|].
  destruct ev; simpl; try discriminate. exact IH.
Qed.








(** ** The store under cancellation (block_all, get_services_summary) *)

Lemma cancel_account_returns (g : Gateway) user log :
  exists user' evs,
    cancel_account g user log = (Ok user', log ++ evs) /\
    user_id user' = user_id user /\
    parabilium_account_id user' = parabilium_account_id user.
Proof.
  destruct (cancel_account_spec g user log)
    as (spei' & evs_spei & cs' & evs_cards & Heq & _).
  cbn zeta in Heq. eexists. eexists. split; [exact Heq|].
  split; reflexivity.
Qed.



(** X9. [get_services_summary] gives one summary per stored record, in
    store order, when the store holds records only, and raises
    [AttributeError] when the store holds a [None]. *)
Theorem get_services_summary_exact (users : Users) :
  get_services_summary users
  = if holds_none users then Raise AttributeError
    else Ok (map check_active_services (stored_records users)).
Proof.
  induction users as [|[k [user|]] rest IH].
  - reflexivity.
  - cbn [get_services_summary]. rewrite IH.
    unfold holds_none, stored_records, dict_values.
    cbn [map snd existsb flat_map app orb].
    destruct (existsb _ (map snd rest)); reflexivity.
  - reflexivity.
Qed.

(** ** What a fetch writes (create_user_instance) *)

Lemma Forall_map_make_card user listing :
  Forall (fun card => card_user_id card = Some user)
         (map (make_card user) listing).
Proof. induction listing; simpl; constructor; auto. Qed.

(** One user of a fetch, when it returns: the user's key is written, with
    [None] or with a record built from the user's own lookups. *)
Lemma create_user_instance_body_ok (g : Gateway) mobile_access user
    instances log m log' :
  create_user_instance_body g mobile_access user instances log = (Ok m, log') ->
  exists v, m = dict_set instances user v /\
            fetched_value g mobile_access user v.
Proof.
  unfold create_user_instance_body, bind, check_account_providers.
  rewrite call_eq.
  destruct (gw_account_providers g log user) as [accounts|] eqn:Hacc.
  2:{ intros H; injection H as <- _. exists None.
      split; [reflexivity|exact I]. }
  set (pid := fst (scan_accounts accounts)).
  assert (Hpid : fst (scan_accounts accounts) = pid) by reflexivity.
  clearbody pid.
  destruct (opt_string_eqb pid (Some "not_found"%string)) eqn:Hnf.
  - unfold ret at 1.
    destruct (dict_get mobile_access user) as [mobile|] eqn:Hmob;
      [|discriminate].
    apply opt_string_eqb_eq in Hnf. rewrite Hnf in *.
    intros H; injection H as <- _. eexists. split; [reflexivity|].
    cbn. unfold fetched_record. cbn.
    split; [reflexivity|]. split; [constructor|]. split; [exact Hmob|].
    exists log, accounts.
    split; [exact Hacc|]. split; [apply scan_accounts_spei|].
    split; [exact Hpid|]. split; [reflexivity|]. intros H; contradiction.
  - unfold check_cards. rewrite call_eq.
    destruct (gw_cards g _ pid) as [listing|] eqn:Hcards.
    2:{ intros H; injection H as <- _. exists None.
        split; [reflexivity|exact I]. }
    destruct (dict_get mobile_access user) as [mobile|] eqn:Hmob;
      [|discriminate].
    destruct pid as [account_id|]; [|discriminate].
    intros H; injection H as <- _. eexists. split; [reflexivity|].
    cbn. unfold fetched_record. cbn.
    split; [reflexivity|]. split; [apply Forall_map_make_card|].
    split; [exact Hmob|].
    exists log, accounts.
    split; [exact Hacc|]. split; [apply scan_accounts_spei|].
    split; [exact Hpid|]. split.
    + intros ->. vm_compute in Hnf. discriminate.
    + intros _. eauto.
Qed.

(** The per-user loop, when it returns, has written one value per user,
    in the order of the users. *)
Lemma create_user_instance_loop_ok (g : Gateway) mobile_access :
  forall l instances log m log',
    for_each (create_user_instance_body g mobile_access) l instances log
    = (Ok m, log') ->
    exists vs,
      Forall2 (fetched_value g mobile_access) l vs /\
      m = dict_set_all instances (combine l vs).
Proof.
  induction l as [|user rest IH]; intros instances log m log' Heq.
  - injection Heq as <- _. exists []. split; [constructor|reflexivity].
  - cbn [for_each] in Heq. unfold bind at 1 in Heq.
    destruct (create_user_instance_body g mobile_access user instances log)
      as [[m1|e] log1] eqn:Hb; [|discriminate].
    destruct (create_user_instance_body_ok _ _ _ _ _ Hb) as (v & -> & Hv).
    destruct (IH _ _ _ _ Heq) as (vs & Hvs & ->).
    exists (v :: vs). split; [constructor; assumption|reflexivity].
Qed.

Lemma dict_keys_set_mem {V} (d : dict V) k v k' :
  In k' (dict_keys (dict_set d k v)) <-> k' = k \/ In k' (dict_keys d).
Proof.
  induction d as [|[k0 v0] rest IH]; simpl.
  - intuition.
  - destruct (String.eqb_spec k0 k) as [->|Hne]; simpl; [intuition|].
    rewrite IH. intuition.
Qed.

Lemma dict_keys_set_NoDup {V} (d : dict V) k v :
  NoDup (dict_keys d) -> NoDup (dict_keys (dict_set d k v)).
Proof.
  induction d as [|[k0 v0] rest IH]; simpl; intros Hnd.
  - constructor; [intros []|constructor].
  - inversion Hnd as [|? ? Hnotin Hnd']; subst.
    destruct (String.eqb_spec k0 k) as [->|Hne]; simpl.
    + constructor; assumption.
    + constructor; [|auto].
      intros Hin. apply dict_keys_set_mem in Hin.
      destruct Hin as [->|Hin]; [congruence|contradiction].
Qed.

Lemma dict_keys_set_extends {V} (d : dict V) k v :
  exists new, dict_keys (dict_set d k v) = dict_keys d ++ new.
Proof.
  induction d as [|[k0 v0] rest IH]; simpl.
  - exists [k]. reflexivity.
  - destruct (String.eqb_spec k0 k) as [->|Hne]; simpl.
    + exists []. rewrite app_nil_r. reflexivity.
    + destruct IH as (new & ->). exists new. reflexivity.
Qed.

Lemma dict_get_none_iff {V} (d : dict V) k :
  dict_get d k = None <-> ~ In k (dict_keys d).
Proof.
  induction d as [|[k0 v0] rest IH]; simpl; [intuition|].
  destruct (String.eqb_spec k0 k) as [->|Hne].
  - split; [discriminate|]. intros H. exfalso. apply H. left; reflexivity.
  - rewrite IH. intuition.
Qed.

Lemma dict_set_all_spec {V} (kvs : list (string * V)) :
  forall d,
    (NoDup (dict_keys d) -> NoDup (dict_keys (dict_set_all d kvs))) /\
    (forall k, In k (dict_keys (dict_set_all d kvs))
               <-> In k (map fst kvs) \/ In k (dict_keys d)) /\
    (forall k v, dict_get (dict_set_all d kvs) k = Some v ->
                 In (k, v) kvs \/ dict_get d k = Some v) /\
    (exists new, dict_keys (dict_set_all d kvs) = dict_keys d ++ new).
Proof.
  induction kvs as [|[k0 v0] rest IH]; intros d.
  - unfold dict_set_all. cbn [fold_left map].
    split; [tauto|]. split; [intros k; simpl; tauto|].
    split; [intros k v H; right; exact H|].
    exists []. rewrite app_nil_r. reflexivity.
  - destruct (IH (dict_set d k0 v0)) as (Hnd & Hmem & Hget & Hext).
    unfold dict_set_all in *. cbn [fold_left fst snd map].
    split; [|split; [|split]].
    + intros H. apply Hnd. apply dict_keys_set_NoDup. exact H.
    + intros k. rewrite Hmem, dict_keys_set_mem. simpl. intuition.
    + intros k v H. destruct (Hget _ _ H) as [Hin|Hd].
      * left. right. exact Hin.
      * destruct (String.eqb_spec k0 k) as [->|Hne].
        -- rewrite dict_get_set_eq in Hd. injection Hd as ->.
           left. left. reflexivity.
        -- rewrite dict_get_set_ne in Hd by exact Hne. right. exact Hd.
    + destruct Hext as (new & ->).
      destruct (dict_keys_set_extends d k0 v0) as (new0 & ->).
      exists (new0 ++ new). rewrite app_assoc. reflexivity.
Qed.

Lemma Forall2_combine_in {A B} (R : A -> B -> Prop) l vs a b :
  Forall2 R l vs -> In (a, b) (combine l vs) -> In a l /\ R a b.
Proof.
  induction 1 as [|x y l' vs' Hxy _ IH]; simpl; [intros []|].
  intros [H|H].
  - injection H as -> ->. auto.
  - destruct (IH H). auto.
Qed.

Lemma Forall2_combine_fst {A B} (R : A -> B -> Prop) l vs :
  Forall2 R l vs -> map fst (combine l vs) = l.
Proof.
  induction 1; simpl; [reflexivity|]. f_equal. assumption.
Qed.

(** A fetch, when it returns. *)
Lemma create_user_instance_ok (g : Gateway) ids log instances log' :
  create_user_instance g ids log = (Ok instances, log') ->
  exists mobile_access evs0 vs,
    check_mobile_access g ids 10 log = (Ok mobile_access, log ++ evs0) /\
    Forall2 (fetched_value g mobile_access) ids vs /\
    instances = dict_set_all [] (combine ids vs).
Proof.
  intros Heq. unfold create_user_instance in Heq.
  destruct (check_mobile_access_spec g ids 10 log)
    as (mobile_access & evs0 & Heq0 & _).
  rewrite (bind_ok _ _ _ Heq0) in Heq.
  destruct (@create_user_instance_loop_ok g mobile_access _ _ _ _ _ Heq)
    as (vs & Hvs & ->).
  exists mobile_access, evs0, vs. auto.
Qed.

(** X10. When a fetch returns, its keys are exactly the requested ids,
    each once even if an id was requested several times, and every record
    in it is stored under its own user id, with cards that carry that
    owner, with the rails of a listing of that user in listing order, with
    the account id that the listing's scan gave, and with no card when
    that id is "not_found". *)
Theorem create_user_instance_records (g : Gateway) (ids : list string)
    (log log' : Log) (instances : Users) :
  create_user_instance g ids log = (Ok instances, log') ->
  NoDup (dict_keys instances) /\
  (forall u, In u (dict_keys instances) <-> In u ids) /\
  (forall u acct,
      dict_get instances u = Some (Some acct) ->
      user_id acct = u /\
      Forall (fun card => card_user_id card = Some u) (cards acct) /\
      (parabilium_account_id acct = "not_found"%string -> cards acct = []) /\
      exists h accounts,
        gw_account_providers g h u = Some accounts /\
        active_spei acct = listing_spei_ids accounts /\
        fst (scan_accounts accounts) = Some (parabilium_account_id acct)).
Proof.
  intros Heq.
  destruct (@create_user_instance_ok g ids log instances log' Heq)
    as (mobile_access & evs0 & vs & _ & Hvs & ->).
  destruct (@dict_set_all_spec _ (combine ids vs)
              (@nil (string * option UserAccount)))
    as (Hnd & Hmem & Hget & _).
  split; [apply Hnd; constructor|]. split.
  - intros u. rewrite Hmem, (@Forall2_combine_fst _ _ _ _ _ Hvs). simpl. tauto.
  - intros u acct Hu.
    destruct (Hget _ _ Hu) as [Hin|Hd]; [|discriminate].
    destruct (@Forall2_combine_in _ _ _ _ _ _ _ Hvs Hin) as (_ & Hrec).
    destruct Hrec as (Hid & Hown & _ & h & accounts & Hacc & Hspei & Hpid
                      & Hnf & _).
    split; [exact Hid|]. split; [exact Hown|]. split; [exact Hnf|].
    exists h, accounts. auto.
Qed.

Lemma create_user_instance_records_witness :
  exists instances log',
    create_user_instance gw_all_ok ["u1"; "u1"]%string [] = (Ok instances, log')
    /\ NoDup (dict_keys instances) /\
    (forall u, In u (dict_keys instances) <-> In u ["u1"; "u1"]%string).
Proof.
  eexists. eexists. split; [reflexivity|].
  refine (let H := @create_user_instance_records gw_all_ok
                     ["u1"; "u1"]%string [] _ _ eq_refl in _).
  split; [exact (proj1 H)|exact (proj1 (proj2 H))].
Defined.

(** ** The store under a batch fetch (create_user_instance_batch) *)

Lemma create_user_instance_ok_keys (g : Gateway) ids log instances log' :
  create_user_instance g ids log = (Ok instances, log') ->
  NoDup (dict_keys instances) /\
  (forall u, In u (dict_keys instances) <-> In u ids).
Proof.
  intros Heq.
  destruct (@create_user_instance_ok g ids log instances log' Heq)
    as (mobile_access & evs0 & vs & _ & Hvs & ->).
  destruct (@dict_set_all_spec _ (combine ids vs)
              (@nil (string * option UserAccount)))
    as (Hnd & Hmem & _ & _).
  split; [apply Hnd; constructor|].
  intros u. rewrite Hmem, (@Forall2_combine_fst _ _ _ _ _ Hvs). simpl. tauto.
Qed.

Lemma dict_update_get_none {V} (other : dict V) :
  forall d k,
    dict_get other k = None ->
    dict_get (dict_update d other) k = dict_get d k.
Proof.
  unfold dict_update.
  induction other as [|[k0 v0] rest IH]; intros d k H; [reflexivity|].
  simpl in H. destruct (String.eqb_spec k0 k) as [->|Hne]; [discriminate|].
  cbn [fold_left fst snd]. rewrite IH by exact H.
  apply dict_get_set_ne. exact Hne.
Qed.

Lemma dict_update_get_some {V} (other : dict V) :
  forall d k v,
    NoDup (dict_keys other) ->
    dict_get other k = Some v ->
    dict_get (dict_update d other) k = Some v.
Proof.
  induction other as [|[k0 v0] rest IH]; intros d k v Hnd H;
    [discriminate|].
  simpl in H. inversion Hnd as [|? ? Hnotin Hnd']; subst.
  change (dict_update d ((k0, v0) :: rest))
    with (dict_update (dict_set d k0 v0) rest).
  destruct (String.eqb_spec k0 k) as [->|Hne].
  - injection H as ->.
    rewrite dict_update_get_none by (apply dict_get_none_iff; exact Hnotin).
    apply dict_get_set_eq.
  - apply IH; assumption.
Qed.

Lemma fold_update_frame (results : list Users) :
  forall (d : Users) k,
    (forall r, In r results -> dict_get r k = None) ->
    dict_get (fold_left (@dict_update _) results d) k = dict_get d k.
Proof.
  induction results as [|r rest IH]; intros d k H; [reflexivity|].
  cbn [fold_left]. rewrite IH by (intros r' Hr'; apply H; right; exact Hr').
  apply dict_update_get_none. apply H. left; reflexivity.
Qed.

Lemma fold_update_defined (results : list Users) :
  forall (d : Users) k,
    dict_get d k <> None \/
    (exists r, In r results /\ In k (dict_keys r)) ->
    dict_get (fold_left (@dict_update _) results d) k <> None.
Proof.
  induction results as [|r rest IH]; intros d k H.
  - destruct H as [H|(r & [] & _)]. exact H.
  - cbn [fold_left]. apply IH.
    destruct H as [H|(r0 & [<-|Hin] & Hk)].
    + left. apply (fold_dict_set_defined (@fst string _) (@snd string _)).
      right; exact H.
    + left. apply (fold_dict_set_defined (@fst string _) (@snd string _)).
      left; exact Hk.
    + right. eauto.
Qed.

Lemma fold_update_extends (results : list Users) :
  forall d : Users,
    exists new,
      dict_keys (fold_left (@dict_update _) results d) = dict_keys d ++ new.
Proof.
  induction results as [|r rest IH]; intros d.
  - exists []. rewrite app_nil_r. reflexivity.
  - cbn [fold_left]. destruct (IH (dict_update d r)) as (new & ->).
    destruct (@dict_set_all_spec _ r d) as (_ & _ & _ & new0 & Hext).
    unfold dict_update. unfold dict_set_all in Hext. rewrite Hext.
    exists (new0 ++ new). rewrite app_assoc. reflexivity.
Qed.

(** What the pool returns is, chunk by chunk, what a fetch returned. *)
Lemma pool_map_ok (g : Gateway) :
  forall chunks log results log',
    pool_map (create_user_instances g) chunks log = (Ok results, log') ->
    Forall2 (fun chunk r =>
               exists l l', create_user_instance g chunk l = (Ok r, l'))
            chunks results.
Proof.
  induction chunks as [|chunk rest IH]; intros log results log' Heq.
  - injection Heq as <- _. constructor.
  - cbn [pool_map] in Heq. unfold bind at 1 in Heq.
    destruct (create_user_instances g chunk log) as [[r|e] log1] eqn:Hc;
      [|discriminate].
    unfold bind at 1 in Heq.
    destruct (pool_map (create_user_instances g) rest log1)
      as [[rs|e] log2] eqn:Hp; [|discriminate].
    injection Heq as <- _.
    constructor; [eauto|]. eapply IH. exact Hp.
Qed.

(** A batch fetch, when it returns. *)
Lemma create_user_instance_batch_ok (g : Gateway) users ids batch_size
    n_process log results users' log' :
  create_user_instance_batch g users ids batch_size n_process log
  = (Ok (results, users'), log') ->
  0 < batch_size /\
  users' = fold_left (@dict_update _) results users /\
  Forall2 (fun chunk r =>
             exists l l', create_user_instance g chunk l = (Ok r, l'))
          (islice_chunks ((length ids + batch_size - 1) / batch_size)
                         batch_size ids)
          results.
Proof.
  unfold create_user_instance_batch.
  destruct (Nat.eqb_spec batch_size 0) as [->|HB]; [discriminate|].
  destruct (Nat.eqb n_process 0); [discriminate|].
  unfold bind.
  destruct (pool_map (create_user_instances g) _ log)
    as [[rs|e] log1] eqn:Hp; [|discriminate].
  intros H. injection H as <- <- _.
  split; [lia|]. split; [reflexivity|].
  eapply pool_map_ok. exact Hp.
Qed.

Lemma Forall2_in_r {A B} (R : A -> B -> Prop) l1 l2 b :
  Forall2 R l1 l2 -> In b l2 -> exists a, In a l1 /\ R a b.
Proof.
  induction 1 as [|x y l1' l2' Hxy _ IH]; simpl; [intros []|].
  intros [<-|H]; [eauto|]. destruct (IH H) as (a & Ha & Hr). eauto.
Qed.

Lemma Forall2_in_l {A B} (R : A -> B -> Prop) l1 l2 a :
  Forall2 R l1 l2 -> In a l1 -> exists b, In b l2 /\ R a b.
Proof.
  induction 1 as [|x y l1' l2' Hxy _ IH]; simpl; [intros []|].
  intros [<-|H]; [eauto|]. destruct (IH H) as (b & Hb & Hr). eauto.
Qed.

(** X11. When a batch fetch returns, every requested id is a key of the
    store (with a record or [None]), the entry of every id that was not
    requested is what it was, and the keys of before keep their places:
    new keys are appended. *)
Theorem create_user_instance_batch_store (g : Gateway) (users : Users)
    (ids : list string) (batch_size n_process : nat) (log log' : Log)
    (results : list Users) (users' : Users) :
  create_user_instance_batch g users ids batch_size n_process log
  = (Ok (results, users'), log') ->
  (forall u, In u ids -> exists v, dict_get users' u = Some v) /\
  (forall k, ~ In k ids -> dict_get users' k = dict_get users k) /\
  (exists new, dict_keys users' = dict_keys users ++ new).
Proof.
  intros Heq.
  destruct (@create_user_instance_batch_ok g users ids batch_size n_process
              log results users' log' Heq) as (HB & -> & Hall).
  set (n := (length ids + batch_size - 1) / batch_size) in *.
  assert (Hcat : concat (islice_chunks n batch_size ids) = ids)
    by (apply islice_chunks_concat, ceil_div_covers; exact HB).
  split; [|split].
  - intros u Hu. rewrite <- Hcat in Hu. apply in_concat in Hu.
    destruct Hu as (chunk & Hchunk & Hin).
    destruct (Forall2_in_l _ Hall Hchunk) as (r & Hr & l & l' & Hfetch).
    destruct (@create_user_instance_ok_keys g chunk l r l' Hfetch)
      as (_ & Hkeys).
    destruct (dict_get (fold_left (@dict_update _) results users) u)
      as [v|] eqn:E; [eauto|].
    exfalso. revert E. apply fold_update_defined.
    right. exists r. split; [exact Hr|]. apply Hkeys. exact Hin.
  - intros k Hk. apply fold_update_frame.
    intros r Hr.
    destruct (Forall2_in_r _ Hall Hr) as (chunk & Hchunk & l & l' & Hfetch).
    destruct (@create_user_instance_ok_keys g chunk l r l' Hfetch)
      as (_ & Hkeys).
    apply dict_get_none_iff. intros Hin. apply Hk.
    rewrite <- Hcat. apply in_concat. exists chunk.
    split; [exact Hchunk|]. apply Hkeys. exact Hin.
  - apply fold_update_extends.
Qed.

Lemma create_user_instance_batch_store_witness :
  exists results users' log',
    create_user_instance_batch gw_no_listing
      [("u9"%string, Some stored_u1); ("u2"%string, Some stored_u2)]
      ["u2"; "u3"]%string 1 4 []
    = (Ok (results, users'), log') /\
    (forall u, In u ["u2"; "u3"]%string ->
               exists v, dict_get users' u = Some v) /\
    (forall k, ~ In k ["u2"; "u3"]%string ->
               dict_get users' k
               = dict_get [("u9"%string, Some stored_u1);
                           ("u2"%string, Some stored_u2)] k) /\
    (exists new, dict_keys users' = ["u9"; "u2"]%string ++ new).
Proof.
  eexists. eexists. eexists. split; [vm_compute; reflexivity|].
  exact (@create_user_instance_batch_store gw_no_listing
           [("u9"%string, Some stored_u1); ("u2"%string, Some stored_u2)]
           ["u2"; "u3"]%string 1 4 [] _ _ _ eq_refl).
Defined.

Lemma NoDup_app_disjoint {A} (l l' : list A) x :
  NoDup (l ++ l') -> In x l -> In x l' -> False.
Proof.
  induction l as [|y t IH]; simpl; intros Hnd Hl Hl'; [exact Hl|].
  inversion Hnd as [|? ? Hnotin Hnd']; subst.
  destruct Hl as [->|Hl]; [|eauto].
  apply Hnotin. apply in_or_app; right; exact Hl'.
Qed.

Lemma fold_update_disjoint (chunks : list (list string))
    (results : list Users) :
  Forall2 (fun chunk r =>
             NoDup (dict_keys r) /\
             forall k, In k (dict_keys r) <-> In k chunk)
          chunks results ->
  NoDup (concat chunks) ->
  forall (d : Users) r u v,
    In r results -> dict_get r u = Some v ->
    dict_get (fold_left (@dict_update _) results d) u = Some v.
Proof.
  induction 1 as [|chunk r0 chunks' results' [Hnd0 Hk0] Hall IH];
    intros Hnd d r u v Hr Hu; [destruct Hr|].
  cbn [concat] in Hnd. cbn [fold_left].
  destruct Hr as [<-|Hr].
  - rewrite fold_update_frame.
    + apply dict_update_get_some; assumption.
    + intros r' Hr'.
      destruct (Forall2_in_r _ Hall Hr') as (chunk' & Hchunk' & _ & Hk').
      apply dict_get_none_iff. intros Hin.
      assert (Hu0 : In u chunk).
      { apply Hk0.
        destruct (in_dec string_dec u (dict_keys r0)) as [Hyes|Hno];
          [exact Hyes|].
        apply dict_get_none_iff in Hno. congruence. }
      apply (@NoDup_app_disjoint _ _ _ u Hnd Hu0).
      apply in_concat. exists chunk'. split; [exact Hchunk'|].
      apply Hk'. exact Hin.
  - exact (IH (NoDup_app_remove_l _ _ Hnd) _ r u v Hr Hu).
Qed.

(** X12. With pairwise distinct ids, when a batch fetch returns, the
    store holds for every key of every worker's dictionary exactly the
    value the worker returned: a fetched record, or the [None] of a failed
    fetch, whatever the store held under that key before. *)
Theorem create_user_instance_batch_stores_results (g : Gateway)
    (users : Users) (ids : list string) (batch_size n_process : nat)
    (log log' : Log) (results : list Users) (users' : Users) :
  NoDup ids ->
  create_user_instance_batch g users ids batch_size n_process log
  = (Ok (results, users'), log') ->
  forall r u v,
    In r results -> dict_get r u = Some v -> dict_get users' u = Some v.
Proof.
  intros Hnd Heq.
  destruct (@create_user_instance_batch_ok g users ids batch_size n_process
              log results users' log' Heq) as (HB & -> & Hall).
  set (n := (length ids + batch_size - 1) / batch_size) in *.
  assert (Hcat : concat (islice_chunks n batch_size ids) = ids)
    by (apply islice_chunks_concat, ceil_div_covers; exact HB).
  intros r u v Hr Hu.
  apply fold_update_disjoint
    with (chunks := islice_chunks n batch_size ids) (r := r);
    [|rewrite Hcat; exact Hnd|exact Hr|exact Hu].
  eapply Forall2_impl; [|exact Hall].
  intros chunk r0 (l & l' & Hfetch).
  exact (@create_user_instance_ok_keys g chunk l r0 l' Hfetch).
Qed.

Lemma create_user_instance_batch_stores_results_witness :
  NoDup ["u2"%string] /\
  exists results users' log',
    create_user_instance_batch gw_no_listing
      [("u2"%string, Some stored_u2)] ["u2"%string] 50 4 []
    = (Ok (results, users'), log') /\
    In [("u2"%string, None)] results /\
    dict_get users' "u2" = Some None.
Proof.
  assert (Hnd : NoDup ["u2"%string])
    by (constructor; [intros []|constructor]).
  split; [exact Hnd|].
  eexists. eexists. eexists. split; [vm_compute; reflexivity|].
  split; [left; reflexivity|].
  exact (@create_user_instance_batch_stores_results gw_no_listing
           [("u2"%string, Some stored_u2)] ["u2"%string] 50 4 [] _ _ _
           Hnd eq_refl [("u2"%string, None)] "u2"%string None
           (or_introl eq_refl) eq_refl).
Defined.

(** ** Failures of the lookups (check_mobile_access, create_user_instance) *)

Lemma fold_set_none {V} (batch : list string) :
  forall (results : dict (option V)) u,
    (In u batch ->
     dict_get (fold_left (fun r user => dict_set r user None) batch results) u
     = Some None) /\
    (~ In u batch ->
     dict_get (fold_left (fun r user => dict_set r user None) batch results) u
     = dict_get results u).
Proof.
  induction batch as [|x rest IH]; intros results u; cbn [fold_left].
  - split; [intros []|reflexivity].
  - destruct (IH (dict_set results x None) u) as (Hin & Hout).
    destruct (in_dec string_dec u rest) as [Hr|Hr].
    + split; [intros _; exact (Hin Hr)|].
      intros Hn. exfalso. apply Hn. right; exact Hr.
    + split.
      * intros [->|H]; [|contradiction].
        rewrite (Hout Hr). apply dict_get_set_eq.
      * intros Hn. rewrite (Hout Hr). apply dict_get_set_ne.
        intros ->. apply Hn. left; reflexivity.
Qed.

Lemma check_mobile_access_loop_all_failed (g : Gateway) batch_size n :
  (forall h batch, gw_is_enabled g h batch = None) ->
  0 < batch_size ->
  forall users results log,
    length users <= n ->
    exists results' evs,
      check_mobile_access_loop g batch_size users results log
      = (Ok results', log ++ evs) /\
      (forall u, In u users -> dict_get results' u = Some None) /\
      (forall u, ~ In u users -> dict_get results' u = dict_get results u).
Proof.
  intros Hdown HB.
  induction n as [|n IH]; intros users results log Hn;
    rewrite check_mobile_access_loop_eq;
    destruct (firstn batch_size users) as [|u0 b] eqn:Hfirst.
  - destruct users; [|simpl in Hn; lia].
    exists results, []. rewrite app_nil_r.
    split; [reflexivity|]. split; [intros u []|reflexivity].
  - destruct users; [|simpl in Hn; lia].
    rewrite firstn_nil in Hfirst. discriminate.
  - destruct users; [|destruct batch_size; [lia|discriminate]].
    exists results, []. rewrite app_nil_r.
    split; [reflexivity|]. split; [intros u []|reflexivity].
  - assert (Hne : 0 < length users)
      by (destruct users; [rewrite firstn_nil in Hfirst; discriminate
                          |simpl; lia]).
    unfold check_mobile_access_batch, bind, is_enabled.
    rewrite call_eq, Hdown. unfold ret at 1.
    destruct (IH (skipn batch_size users)
                 (fold_left (fun r user => dict_set r user None)
                            (u0 :: b) results)
                 (log ++ [EvIsEnabled (u0 :: b) None]))
      as (results' & evs & Heq & Hin & Hout).
    { rewrite length_skipn. lia. }
    exists results', (EvIsEnabled (u0 :: b) None :: evs).
    rewrite Heq, <- app_assoc. split; [reflexivity|].
    split.
    + intros u Hu.
      destruct (in_dec string_dec u (skipn batch_size users)) as [Hs|Hs];
        [exact (Hin u Hs)|].
      rewrite (Hout u Hs).
      apply (proj1 (fold_set_none (u0 :: b) results u)).
      rewrite <- Hfirst.
      rewrite <- (firstn_skipn batch_size users) in Hu.
      apply in_app_or in Hu. destruct Hu; [assumption|contradiction].
    + intros u Hu.
      assert (H1 : ~ In u (skipn batch_size users)).
      { intros H. apply Hu.
        rewrite <- (firstn_skipn batch_size users).
        apply in_or_app; right; exact H. }
      assert (H2 : ~ In u (u0 :: b)).
      { intros H. apply Hu. rewrite <- Hfirst in H.
        rewrite <- (firstn_skipn batch_size users).
        apply in_or_app; left; exact H. }
      rewrite (Hout u H1).
      exact (proj2 (fold_set_none (u0 :: b) results u) H2).
Qed.

(** X13. When every entitlement request fails, [check_mobile_access]
    still returns: its dictionary holds exactly the requested ids, each
    mapped to [None]. *)
Theorem check_mobile_access_all_failed (g : Gateway) (ids : list string)
    (batch_size : nat) (log : Log) :
  (forall h batch, gw_is_enabled g h batch = None) ->
  0 < batch_size ->
  exists results evs,
    check_mobile_access g ids batch_size log = (Ok results, log ++ evs) /\
    (forall u, In u ids -> dict_get results u = Some None) /\
    (forall u, ~ In u ids -> dict_get results u = None).
Proof.
  intros Hdown HB.
  destruct (@check_mobile_access_loop_all_failed g batch_size (length ids)
              Hdown HB ids [] log (le_n _))
    as (results & evs & Heq & Hin & Hout).
  exists results, evs. split; [exact Heq|]. split; [exact Hin|].
  intros u Hu. rewrite (Hout u Hu). reflexivity.
Qed.

Lemma check_mobile_access_all_failed_witness :
  (forall h batch, gw_is_enabled gw_entitlement_down h batch = None) /\
  0 < 2 /\
  exists results evs,
    check_mobile_access gw_entitlement_down ["u1"; "u2"; "u3"]%string 2 []
    = (Ok results, [] ++ evs) /\
    (forall u, In u ["u1"; "u2"; "u3"]%string ->
               dict_get results u = Some None) /\
    (forall u, ~ In u ["u1"; "u2"; "u3"]%string ->
               dict_get results u = None).
Proof.
  split; [reflexivity|]. split; [lia|].
  apply (@check_mobile_access_all_failed gw_entitlement_down
           ["u1"; "u2"; "u3"]%string 2 []); [reflexivity|lia].
Defined.

Lemma check_mobile_access_all_failed_aux (g : Gateway) ids log :
  (forall h batch, gw_is_enabled g h batch = None) ->
  exists mobile_access evs0,
    check_mobile_access g ids 10 log = (Ok mobile_access, log ++ evs0) /\
    (forall u, In u ids -> dict_get mobile_access u = Some None).
Proof.
  intros Hdown.
  destruct (@check_mobile_access_loop_all_failed g 10 (length ids)
              Hdown (Nat.lt_0_succ _) ids [] log (le_n _))
    as (results & evs & Heq & Hin & _).
  exists results, evs. split; [exact Heq|exact Hin].
Qed.

(** The per-user loop, when it raises: the two exceptions and what they
    mean. *)
Lemma create_user_instance_loop_raise (g : Gateway) mobile_access :
  forall l instances log e log',
    for_each (create_user_instance_body g mobile_access) l instances log
    = (Raise e, log') ->
    (e = KeyError /\ exists u, In u l /\ dict_get mobile_access u = None) \/
    (e = ValidationError /\
     exists h u accounts,
       In u l /\ gw_account_providers g h u = Some accounts /\
       fst (scan_accounts accounts) = None).
Proof.
  induction l as [|user rest IH]; intros instances log e log' Heq;
    [discriminate|].
  cbn [for_each] in Heq.
  destruct (create_user_instance_body_cases g mobile_access user
              instances log)
    as (evs1 & _ & [(v & Hb & _)|[(Hb & Hnone)|(Hb & accounts & Hacc & Hpid)]]).
  - rewrite (bind_ok _ _ _ Hb) in Heq.
    destruct (IH _ _ _ _ Heq)
      as [(He & u & Hu & Hn)|(He & h & u & accounts & Hu & Hacc & Hpid)].
    + left. split; [exact He|]. exists u. split; [right; exact Hu|exact Hn].
    + right. split; [exact He|]. exists h, u, accounts.
      split; [right; exact Hu|]. auto.
  - rewrite (bind_raise _ _ _ Hb) in Heq. injection Heq as <- _.
    left. split; [reflexivity|]. exists user. split; [left; reflexivity|].
    exact Hnone.
  - rewrite (bind_raise _ _ _ Hb) in Heq. injection Heq as <- _.
    right. split; [reflexivity|]. exists log, user, accounts.
    split; [left; reflexivity|]. auto.
Qed.

Lemma create_user_instance_loop_no_listing (g : Gateway) mobile_access :
  (forall h u, gw_account_providers g h u = None) ->
  forall l instances log,
    for_each (create_user_instance_body g mobile_access) l instances log
    = (Ok (fold_left (fun r user => dict_set r user None) l instances),
       log ++ map (fun u => EvCheckAccountProviders u None) l).
Proof.
  intros Hno.
  induction l as [|user rest IH]; intros instances log.
  - simpl. unfold ret. rewrite app_nil_r. reflexivity.
  - cbn [for_each fold_left map]. unfold bind at 1.
    unfold create_user_instance_body at 1.
    unfold bind at 1. unfold check_account_providers.
    rewrite call_eq, Hno. unfold ret at 1.
    rewrite IH, <- app_assoc. reflexivity.
Qed.

(** X16. When every identity lookup fails, a fetch returns every
    requested id mapped to [None], whatever the entitlement lookup
    answered; after the entitlement requests it makes one identity lookup
    per requested id, in order, and no card lookup. *)
Theorem create_user_instance_no_listing (g : Gateway) (ids : list string)
    (log : Log) :
  (forall h u, gw_account_providers g h u = None) ->
  exists instances evs0,
    create_user_instance g ids log
    = (Ok instances,
       (log ++ evs0) ++ map (fun u => EvCheckAccountProviders u None) ids) /\
    forallb is_enabled_event evs0 = true /\
    (forall u, In u ids -> dict_get instances u = Some None) /\
    (forall u, ~ In u ids -> dict_get instances u = None).
Proof.
  intros Hno.
  destruct (check_mobile_access_spec g ids 10 log)
    as (mobile_access & evs0 & Heq0 & Hevs0 & _).
  exists (fold_left (fun r user => dict_set r user None) ids []), evs0.
  split; [|split; [exact Hevs0|split]].
  - unfold create_user_instance. rewrite (bind_ok _ _ _ Heq0).
    apply create_user_instance_loop_no_listing. exact Hno.
  - intros u Hu. exact (proj1 (fold_set_none ids [] u) Hu).
  - intros u Hu. rewrite (proj2 (fold_set_none ids [] u) Hu). reflexivity.
Qed.

Lemma create_user_instance_no_listing_witness :
  (forall h u, gw_account_providers gw_no_listing h u = None) /\
  exists instances evs0,
    create_user_instance gw_no_listing ["u1"; "u2"]%string []
    = (Ok instances,
       ([] ++ evs0)
       ++ map (fun u => EvCheckAccountProviders u None) ["u1"; "u2"]%string)
    /\ forallb is_enabled_event evs0 = true /\
    (forall u, In u ["u1"; "u2"]%string -> dict_get instances u = Some None)
    /\ (forall u, ~ In u ["u1"; "u2"]%string -> dict_get instances u = None).
Proof.
  split; [reflexivity|].
  apply (@create_user_instance_no_listing gw_no_listing
           ["u1"; "u2"]%string []).
  reflexivity.
Defined.

(** ** The scan of a listing (create_user_instance) *)

Lemma scan_accounts_fold_no_card_processor accounts :
  (forall account, In account accounts ->
     providerId account <> Some "PARABILIUM"%string) ->
  forall st, fst (fold_left scan_account accounts st) = fst st.
Proof.
  induction accounts as [|account rest IH]; intros Hno st; [reflexivity|].
  cbn [fold_left]. rewrite IH by (intros a Ha; apply Hno; right; exact Ha).
  unfold scan_account. cbn [fst].
  destruct (opt_string_eqb (providerId account) (Some "PARABILIUM"%string))
    eqn:E; [|reflexivity].
  apply opt_string_eqb_eq in E. exfalso.
  exact (Hno account (or_introl eq_refl) E).
Qed.

(** X17. The scan of a linking listing gives the rails of the SPEI
    entries that have an id, in listing order; as account id it gives
    "not_found" when no entry is tagged PARABILIUM, and otherwise the
    [internalId] field of the last entry tagged PARABILIUM, even when an
    earlier one differs or when that field is missing. *)
Theorem scan_accounts_exact :
  (forall accounts,
      snd (scan_accounts accounts) = listing_spei_ids accounts) /\
  (forall accounts,
      (forall account, In account accounts ->
         providerId account <> Some "PARABILIUM"%string) ->
      fst (scan_accounts accounts) = Some "not_found"%string) /\
  (forall before account after,
      providerId account = Some "PARABILIUM"%string ->
      (forall a, In a after -> providerId a <> Some "PARABILIUM"%string) ->
      fst (scan_accounts (before ++ account :: after))
      = internalId account).
Proof.
  split; [|split].
  - intros accounts. unfold scan_accounts.
    rewrite scan_accounts_fold_spei. reflexivity.
  - intros accounts Hno. unfold scan_accounts.
    rewrite scan_accounts_fold_no_card_processor by exact Hno. reflexivity.
  - intros before account after Hp Hno. unfold scan_accounts.
    rewrite fold_left_app. cbn [fold_left].
    rewrite scan_accounts_fold_no_card_processor by exact Hno.
    unfold scan_account at 1. cbn [fst]. rewrite Hp. reflexivity.
Qed.

(** ** Users without a card account (create_user_instance) *)

Lemma create_user_instance_body_not_linked (g : Gateway) mobile_access user
    instances log :
  no_card_processor g ->
  exists r,
    create_user_instance_body g mobile_access user instances log
    = (r, log ++ [EvCheckAccountProviders user
                    (gw_account_providers g log user)]).
Proof.
  intros Hno.
  unfold create_user_instance_body, bind, check_account_providers.
  rewrite call_eq.
  destruct (gw_account_providers g log user) as [accounts|] eqn:Hacc;
    [|eexists; reflexivity].
  assert (Hs : fst (scan_accounts accounts) = Some "not_found"%string).
  { unfold scan_accounts.
    rewrite scan_accounts_fold_no_card_processor
      by (intros account Hin; exact (Hno _ _ _ _ Hacc Hin)).
    reflexivity. }
  rewrite Hs. cbn [opt_string_eqb]. rewrite String.eqb_refl.
  unfold ret at 1.
  destruct (dict_get mobile_access user); eexists; reflexivity.
Qed.

Lemma create_user_instance_loop_not_linked (g : Gateway) mobile_access :
  no_card_processor g ->
  forall l instances log,
    exists r evs,
      for_each (create_user_instance_body g mobile_access) l instances log
      = (r, log ++ evs) /\
      Forall (fun ev => exists u x, ev = EvCheckAccountProviders u x) evs.
Proof.
  intros Hno.
  induction l as [|user rest IH]; intros instances log.
  - eexists. exists []. rewrite app_nil_r.
    split; [reflexivity|constructor].
  - cbn [for_each]. unfold bind at 1.
    destruct (create_user_instance_body_not_linked mobile_access user
                instances log Hno) as ([m|e] & ->).
    + destruct (IH m (log ++ [EvCheckAccountProviders user
                                (gw_account_providers g log user)]))
        as (r & evs & -> & Hevs).
      eexists. eexists. rewrite <- app_assoc.
      split; [reflexivity|]. constructor; [eauto|exact Hevs].
    + eexists. eexists. split; [reflexivity|].
      constructor; [eauto|constructor].
Qed.

(** X18. When no listing has an entry tagged PARABILIUM, a fetch makes no
    card lookup at all, whether it returns or raises, and every record it
    returns has the account id "not_found" and no card. *)
Theorem create_user_instance_not_linked (g : Gateway) (ids : list string)
    (log : Log) :
  no_card_processor g ->
  (exists r evs,
      create_user_instance g ids log = (r, log ++ evs) /\
      forall a x, ~ In (EvCheckCards a x) evs) /\
  (forall instances log' u acct,
      create_user_instance g ids log = (Ok instances, log') ->
      dict_get instances u = Some (Some acct) ->
      parabilium_account_id acct = "not_found"%string /\ cards acct = []).
Proof.
  intros Hno. split.
  - destruct (check_mobile_access_spec g ids 10 log)
      as (mobile_access & evs0 & Heq0 & Hevs0 & _).
    destruct (create_user_instance_loop_not_linked mobile_access Hno
                ids [] (log ++ evs0)) as (r & evs1 & Heq1 & Hevs1).
    exists r, (evs0 ++ evs1). split.
    + unfold create_user_instance.
      rewrite (bind_ok _ _ _ Heq0), Heq1, <- app_assoc. reflexivity.
    + intros a x Hin. apply in_app_or in Hin. destruct Hin as [Hin|Hin].
      * rewrite forallb_forall in Hevs0. specialize (Hevs0 _ Hin).
        discriminate.
      * rewrite Forall_forall in Hevs1.
        destruct (Hevs1 _ Hin) as (u & y & H). discriminate.
  - intros instances log' u acct Heq Hu.
    destruct (@create_user_instance_ok g ids log instances log' Heq)
      as (ma & evs0 & vs & _ & Hvs & ->).
    destruct (@dict_set_all_spec _ (combine ids vs)
                (@nil (string * option UserAccount)))
      as (_ & _ & Hget & _).
    destruct (Hget _ _ Hu) as [Hc|Hd]; [|discriminate].
    destruct (@Forall2_combine_in _ _ _ _ _ _ _ Hvs Hc)
      as (_ & _ & _ & _ & h & accounts & Hacc & _ & Hpid & Hnf & _).
    unfold scan_accounts in Hpid.
    rewrite scan_accounts_fold_no_card_processor in Hpid
      by (intros account Hin; exact (Hno _ _ _ _ Hacc Hin)).
    cbn [fst] in Hpid. injection Hpid as Hpid.
    split; [symmetry; exact Hpid|]. apply Hnf. symmetry; exact Hpid.
Qed.

Lemma gw_rail_only_no_card_processor : no_card_processor gw_rail_only.
Proof.
  intros h u accounts account H Hin. simpl in H. injection H as <-.
  destruct Hin as [<-|[]]. simpl. discriminate.
Defined.

Lemma create_user_instance_not_linked_witness :
  no_card_processor gw_rail_only /\
  exists instances log' acct,
    create_user_instance gw_rail_only ["u1"%string] [] = (Ok instances, log')
    /\ dict_get instances "u1" = Some (Some acct) /\
    parabilium_account_id acct = "not_found"%string /\ cards acct = [].
Proof.
  split; [exact gw_rail_only_no_card_processor|].
  eexists. eexists. eexists.
  split; [vm_compute; reflexivity|]. split; [reflexivity|].
  exact (proj2 (@create_user_instance_not_linked gw_rail_only
                  ["u1"%string] [] gw_rail_only_no_card_processor)
               _ _ "u1"%string _ eq_refl eq_refl).
Defined.

(** ** The chunks of a batch fetch (create_user_instance_batch) *)

Lemma islice_chunks_nth batch_size n :
  forall l i,
    i < n ->
    nth_error (islice_chunks n batch_size l) i
    = Some (firstn batch_size (skipn (i * batch_size) l)).
Proof.
  induction n as [|n IH]; intros l i Hi; [lia|].
  destruct i as [|j]; cbn [islice_chunks nth_error]; [reflexivity|].
  rewrite IH by lia. rewrite skipn_skipn.
  replace (j * batch_size + batch_size) with (S j * batch_size) by lia.
  reflexivity.
Qed.

Lemma islice_chunks_sizes batch_size n :
  0 < batch_size ->
  forall l,
    n * batch_size < length l + batch_size ->
    Forall (fun chunk => 0 < length chunk /\ length chunk <= batch_size)
           (islice_chunks n batch_size l).
Proof.
  intros HB.
  induction n as [|n IH]; intros l Hn; cbn [islice_chunks]; constructor;
    rewrite Nat.mul_succ_l in Hn.
  - rewrite length_firstn. lia.
  - apply IH. rewrite length_skipn.
    destruct (Nat.le_gt_cases batch_size (length l)); [lia|].
    assert (Hlt : n * batch_size < batch_size) by lia.
    destruct n; [lia|]. rewrite Nat.mul_succ_l in Hlt. lia.
Qed.

(** X19. The chunks that a batch fetch hands to its workers: chunk i is
    the ids from position i * batch_size on, at most batch_size of them;
    no chunk is empty and none is longer than batch_size. *)
Theorem batch_chunks_exact (ids : list string) (batch_size : nat) :
  0 < batch_size ->
  let chunks :=
    islice_chunks ((length ids + batch_size - 1) / batch_size)
                  batch_size ids in
  (forall i, i < length chunks ->
             nth_error chunks i
             = Some (firstn batch_size (skipn (i * batch_size) ids))) /\
  Forall (fun chunk => 0 < length chunk /\ length chunk <= batch_size)
         chunks.
Proof.
  intros HB chunks. unfold chunks. split.
  - intros i Hi. rewrite islice_chunks_length in Hi.
    apply islice_chunks_nth. exact Hi.
  - apply islice_chunks_sizes; [exact HB|].
    pose proof (Nat.div_mod_eq (length ids + batch_size - 1) batch_size).
    pose proof (Nat.mod_upper_bound (length ids + batch_size - 1) batch_size).
    nia.
Qed.

Lemma batch_chunks_exact_witness :
  0 < 2 /\
  Forall (fun chunk => 0 < length chunk /\ length chunk <= 2)
         (islice_chunks ((length ["u1"; "u2"; "u3"]%string + 2 - 1) / 2)
                        2 ["u1"; "u2"; "u3"]%string).
Proof.
  split; [lia|].
  exact (proj2 (@batch_chunks_exact ["u1"; "u2"; "u3"]%string 2
                  (Nat.lt_0_succ 1))).
Defined.

(** ** Sequences of card transitions (UserCard) *)

Lemma card_step_invariant (g : Gateway) card card' :
  card_step g card card' ->
  card_user_id card' = card_user_id card /\
  klrid card' = klrid card /\
  card_type_of card' = card_type_of card /\
  (card_status_of card' = card_status_of card \/
   card_status_of card' = FROZEN \/
   card_status_of card' = ACTIVE \/
   card_status_of card' = FROZEN_PERMANENT \/
   (card_status_of card' = CANCELED /\ card_type_of card = VIRTUAL)).
Proof.
  destruct card as [u k s t].
  intros [log log' H|log log' H|log log' H|log log' H|log log' H];
    revert H;
    unfold cancel, delete, frozen_permanent, frozen, active, bind,
      update_card_status, delete_virtual_card, call, ret;
    destruct t; cbn;
    repeat match goal with
           | |- context [if ?b then _ else _] => destruct b
           end;
    intros H; injection H as <- _; cbn; intuition.
Qed.

(** X20. Whatever sequence of transitions ([delete], [frozen_permanent],
    [frozen], [active], [cancel]) a card goes through and however the
    backend answers, the card keeps its owner, id and type; its status is
    the one it started with or one of FROZEN, ACTIVE, FROZEN_PERMANENT,
    CANCELED; and a PHYSICAL card that was not CANCELED never becomes
    CANCELED. *)
Theorem card_steps_invariant (g : Gateway) (card card' : UserCard) :
  card_steps g card card' ->
  card_user_id card' = card_user_id card /\
  klrid card' = klrid card /\
  card_type_of card' = card_type_of card /\
  (card_status_of card' = card_status_of card \/
   card_status_of card' = FROZEN \/
   card_status_of card' = ACTIVE \/
   card_status_of card' = FROZEN_PERMANENT \/
   card_status_of card' = CANCELED) /\
  (card_type_of card = PHYSICAL ->
   card_status_of card <> CANCELED ->
   card_status_of card' <> CANCELED).
Proof.
  induction 1 as [card|card card1 card2 Hstep _ IH].
  - repeat split; auto.
  - destruct (card_step_invariant Hstep) as (Hu & Hk & Ht & Hs).
    destruct IH as (Hu' & Hk' & Ht' & Hs' & Hphys).
    split; [congruence|]. split; [congruence|]. split; [congruence|].
    split.
    + destruct Hs' as [Hs'|Hs']; [|tauto].
      rewrite Hs'. tauto.
    + intros Hty Hnc. apply Hphys; [congruence|].
      destruct Hs as [Hs|[Hs|[Hs|[Hs|[Hs Hv]]]]]; congruence.
Qed.

Lemma card_steps_invariant_witness :
  card_steps gw_all_ok physical_card
    (set_card_status physical_card FROZEN_PERMANENT) /\
  card_status_of (set_card_status physical_card FROZEN_PERMANENT)
  <> CANCELED.
Proof.
  assert (Hsteps : card_steps gw_all_ok physical_card
                     (set_card_status physical_card FROZEN_PERMANENT)).
  { eapply card_steps_cons; [|apply card_steps_nil].
    eapply (@step_cancel gw_all_ok _ _ []). reflexivity. }
  split; [exact Hsteps|].
  apply (proj2 (proj2 (proj2 (proj2
           (@card_steps_invariant gw_all_ok _ _ Hsteps)))));
    [reflexivity|discriminate].
Defined.

(** ** Degenerate inputs *)

(** X21. With no user id nothing is looked up: the entitlement lookup,
    the fetch, the refresh of an empty store, [block_all] on an empty
    store and a batch fetch of no id all return without a remote call,
    and the batch fetch leaves the store as it is. *)
Theorem no_ids_no_calls (g : Gateway) (log : Log) :
  (forall batch_size,
      check_mobile_access g [] batch_size log = (Ok [], log)) /\
  create_user_instance g [] log = (Ok [], log) /\
  refresh_all_data g [] log = (Ok tt, log) /\
  (forall refresh, block_all g refresh [] log = (Ok [], log)) /\
  (forall users batch_size n_process,
      create_user_instance_batch g users [] (S batch_size) (S n_process) log
      = (Ok ([], users), log)).
Proof.
  assert (Hcheck : forall batch_size,
             check_mobile_access g [] batch_size log = (Ok [], log)).
  { intros batch_size. unfold check_mobile_access.
    rewrite check_mobile_access_loop_eq, firstn_nil. reflexivity. }
  assert (Hfetch : create_user_instance g [] log = (Ok [], log)).
  { unfold create_user_instance. rewrite (bind_ok _ _ _ (Hcheck 10)).
    reflexivity. }
  split; [exact Hcheck|]. split; [exact Hfetch|].
  split; [reflexivity|]. split; [intros [|]; reflexivity|].
  intros users batch_size n_process.
  unfold create_user_instance_batch. cbn [Nat.eqb length].
  replace ((0 + S batch_size - 1) / S batch_size) with 0
    by (symmetry; apply Nat.div_small; lia).
  reflexivity.
Qed.

(** X22. A batch size of zero: [check_mobile_access] makes no request
    and returns the empty dictionary whatever ids it was given, whereas
    [create_user_instance_batch] raises [ZeroDivisionError] before any
    remote call. *)
Theorem batch_size_zero (g : Gateway) (ids : list string) (users : Users)
    (n_process : nat) (log : Log) :
  check_mobile_access g ids 0 log = (Ok [], log) /\
  create_user_instance_batch g users ids 0 n_process log
  = (Raise ZeroDivisionError, log).
Proof.
  split; [|reflexivity].
  unfold check_mobile_access.
  rewrite check_mobile_access_loop_eq. reflexivity.
Qed.

(** ** Rails left after a cooperative cancellation *)




(** ** Isolation of failures *)

(** X24. When every successful entitlement answer has an entry for each
    id it was asked about, [check_mobile_access] returns a dictionary with
    an entry (a flag or [None]) for every requested id, whichever of its
    requests fail. *)
Theorem check_mobile_access_covers_ids (g : Gateway) (ids : list string)
    (batch_size : nat) (log : Log) :
  entitlement_covers g ->
  0 < batch_size ->
  exists results evs,
    check_mobile_access g ids batch_size log = (Ok results, log ++ evs) /\
    forall u, In u ids -> exists v, dict_get results u = Some v.
Proof.
  intros Hcov HB.
  destruct (check_mobile_access_spec g ids batch_size log)
    as (results & evs & Heq & _ & H).
  destruct (H HB) as (_ & _ & Hdef).
  exists results, evs. split; [exact Heq|].
  intros u Hu. specialize (Hdef Hcov u Hu).
  destruct (dict_get results u) as [v|]; [eauto|contradiction].
Qed.

Lemma gw_first_request_fails_covers :
  entitlement_covers gw_first_request_fails.
Proof.
  intros h batch entries H u Hu. simpl in H.
  destruct h; [discriminate|]. injection H as <-.
  rewrite map_map. simpl. rewrite map_id. exact Hu.
Defined.

Lemma check_mobile_access_covers_ids_witness :
  entitlement_covers gw_first_request_fails /\ 0 < 2 /\
  exists results evs,
    check_mobile_access gw_first_request_fails ["u1"; "u2"; "u3"]%string 2 []
    = (Ok results, [] ++ evs) /\
    forall u, In u ["u1"; "u2"; "u3"]%string ->
              exists v, dict_get results u = Some v.
Proof.
  split; [exact gw_first_request_fails_covers|]. split; [lia|].
  apply (@check_mobile_access_covers_ids gw_first_request_fails
           ["u1"; "u2"; "u3"]%string 2 []);
    [exact gw_first_request_fails_covers|lia].
Defined.

(** * Exact statements *)

(** ** The phases of [cancel_account] *)

(** The workflow is the mobile phase, then the rail loop, then the card
    loop, each started from the log the one before it left. *)
Lemma cancel_account_compose (g : Gateway) user log spei' log2 cs' log3 :
  block_spei_loop g (user_id user) 0 (active_spei user)
    (log ++ (if truthy (has_mobile_access user)
             then [EvLockMobileAccess (user_id user)
                     (gw_lock_mobile_access g log (user_id user))]
             else []))
  = (Ok spei', log2) ->
  for_each (cancel_ref g) (get_active_cards_from 0 (cards user))
           (cards user) log2
  = (Ok cs', log3) ->
  cancel_account g user log
  = (Ok {| user_id := user_id user;
           parabilium_account_id := parabilium_account_id user;
           active_spei := spei';
           has_mobile_access :=
             if truthy (has_mobile_access user)
                && gw_lock_mobile_access g log (user_id user)
             then Some false else has_mobile_access user;
           cards := cs' |}, log3).
Proof.
  intros Hs Hc.
  pose proof (block_mobile_user_account_spec g user log) as Hm.
  unfold cancel_account.
  destruct (truthy (has_mobile_access user)).
  - rewrite (bind_ok _ _ _ Hm).
    destruct (gw_lock_mobile_access g log (user_id user)).
    + unfold bind at 1. unfold block_spei_user_account at 1.
      cbn [user_id active_spei set_has_mobile_access].
      rewrite (bind_ok _ _ _ Hs). unfold ret at 1.
      unfold block_cards_user_account, get_active_cards.
      cbn [cards set_active_spei set_has_mobile_access].
      rewrite (bind_ok _ _ _ Hc). reflexivity.
    + unfold bind at 1. unfold block_spei_user_account at 1.
      rewrite (bind_ok _ _ _ Hs). unfold ret at 1.
      unfold block_cards_user_account, get_active_cards.
      cbn [cards set_active_spei].
      rewrite (bind_ok _ _ _ Hc). destruct user; reflexivity.
  - rewrite app_nil_r in Hs. rewrite (bind_ok _ _ _ Hm).
    unfold bind at 1. unfold block_spei_user_account at 1.
    rewrite (bind_ok _ _ _ Hs). unfold ret at 1.
    unfold block_cards_user_account, get_active_cards.
    cbn [cards set_active_spei].
    rewrite (bind_ok _ _ _ Hc). destruct user; reflexivity.
Qed.

Lemma cancel_eq (g : Gateway) (card : UserCard) (log : Log) :
  cancel g card log
  = match card_type_of card with
    | VIRTUAL =>
        (Ok (if gw_delete_virtual_card g log (klrid card)
             then set_card_status card CANCELED else card),
         log ++ [EvDeleteVirtualCard (klrid card)
                   (gw_delete_virtual_card g log (klrid card))])
    | PHYSICAL =>
        (Ok (if gw_update_card_status g log (klrid card) T_FROZEN_PERMANENT
             then set_card_status card FROZEN_PERMANENT else card),
         log ++ [EvUpdateCardStatus (klrid card) T_FROZEN_PERMANENT
                   (gw_update_card_status g log (klrid card)
                      T_FROZEN_PERMANENT)])
    end.
Proof.
  destruct card as [u k s t].
  destruct t;
    unfold cancel, delete, frozen_permanent, bind, update_card_status,
      delete_virtual_card, call, ret; cbn.
  - destruct (gw_update_card_status g log k T_FROZEN_PERMANENT); reflexivity.
  - destruct (gw_delete_virtual_card g log k); reflexivity.
Qed.

(** The card loop, with its references into the shared list, does what
    [cards_cancelled] says. *)
Lemma block_cards_loop_cancelled (g : Gateway) :
  forall cs pre log,
    exists cs' log',
      for_each (cancel_ref g) (get_active_cards_from (length pre) cs)
               (pre ++ cs) log
      = (Ok (pre ++ cs'), log') /\
      cards_cancelled g log cs cs' log'.
Proof.
  induction cs as [|c rest IH]; intros pre log.
  - exists [], log. split; [reflexivity|constructor].
  - cbn [get_active_cards_from].
    destruct (status_in (card_status_of c) active_statuses) eqn:Hact.
    + pose proof (cancel_eq g c log) as Hc.
      destruct (card_type_of c) eqn:Hty.
      * destruct (IH (pre ++ [if gw_update_card_status g log (klrid c)
                                     T_FROZEN_PERMANENT
                              then set_card_status c FROZEN_PERMANENT
                              else c])
                     (log ++ [EvUpdateCardStatus (klrid c) T_FROZEN_PERMANENT
                                (gw_update_card_status g log (klrid c)
                                   T_FROZEN_PERMANENT)]))
          as (cs' & log' & Heq & Hrel).
        rewrite length_app, Nat.add_1_r, <- !app_assoc in Heq.
        cbn [app] in Heq.
        eexists (_ :: cs'), log'. split.
        -- cbn [for_each]. unfold bind at 1. unfold cancel_ref at 1.
           rewrite nth_error_app2 by lia. rewrite Nat.sub_diag.
           cbn [nth_error]. unfold bind at 1. rewrite Hc. unfold ret at 1.
           rewrite list_set_middle. exact Heq.
        -- eapply cc_physical; [exact Hact|exact Hty|reflexivity|exact Hrel].
      * destruct (IH (pre ++ [if gw_delete_virtual_card g log (klrid c)
                              then set_card_status c CANCELED
                              else c])
                     (log ++ [EvDeleteVirtualCard (klrid c)
                                (gw_delete_virtual_card g log (klrid c))]))
          as (cs' & log' & Heq & Hrel).
        rewrite length_app, Nat.add_1_r, <- !app_assoc in Heq.
        cbn [app] in Heq.
        eexists (_ :: cs'), log'. split.
        -- cbn [for_each]. unfold bind at 1. unfold cancel_ref at 1.
           rewrite nth_error_app2 by lia. rewrite Nat.sub_diag.
           cbn [nth_error]. unfold bind at 1. rewrite Hc. unfold ret at 1.
           rewrite list_set_middle. exact Heq.
        -- eapply cc_virtual; [exact Hact|exact Hty|reflexivity|exact Hrel].
    + destruct (IH (pre ++ [c]) log) as (cs' & log' & Heq & Hrel).
      rewrite length_app, Nat.add_1_r, <- !app_assoc in Heq.
      cbn [app] in Heq.
      exists (c :: cs'), log'. split; [exact Heq|].
      apply cc_inactive; assumption.
Qed.

(** [cards_cancelled], read card by card. *)
Lemma cards_cancelled_nth (g : Gateway) log cs cs' log' :
  cards_cancelled g log cs cs' log' ->
  exists evs,
    log' = log ++ evs /\
    forallb is_card_event evs = true /\
    called_cards evs
    = map klrid
          (filter (fun card =>
                     status_in (card_status_of card) active_statuses) cs) /\
    length cs' = length cs /\
    forall i card,
      nth_error cs i = Some card ->
      exists card',
        nth_error cs' i = Some card' /\
        card_user_id card' = card_user_id card /\
        klrid card' = klrid card /\
        card_type_of card' = card_type_of card /\
        (status_in (card_status_of card) active_statuses = false ->
         card' = card) /\
        (status_in (card_status_of card) active_statuses = true ->
         card_type_of card = VIRTUAL ->
         exists ok,
           In (EvDeleteVirtualCard (klrid card) ok) evs /\
           card_status_of card'
           = if ok then CANCELED else card_status_of card) /\
        (status_in (card_status_of card) active_statuses = true ->
         card_type_of card = PHYSICAL ->
         exists ok,
           In (EvUpdateCardStatus (klrid card) T_FROZEN_PERMANENT ok) evs /\
           card_status_of card'
           = if ok then FROZEN_PERMANENT else card_status_of card).
Proof.
  induction 1 as [log
                 |log card rest rest' log' Hact _ IH
                 |log card ok rest rest' log' Hact Hty Hok _ IH
                 |log card ok rest rest' log' Hact Hty Hok _ IH].
  - exists []. rewrite app_nil_r. repeat split.
    intros i card H. destruct i; discriminate.
  - destruct IH as (evs & -> & Hev & Hcalls & Hlen & Hnth).
    exists evs. split; [reflexivity|]. split; [exact Hev|]. split.
    { cbn [filter]. rewrite Hact. exact Hcalls. }
    split; [simpl; lia|].
    intros [|i] c Hc; cbn [nth_error] in *.
    + injection Hc as <-. exists card.
      repeat split; congruence.
    + exact (Hnth i c Hc).
  - destruct IH as (evs & -> & Hev & Hcalls & Hlen & Hnth).
    exists (EvDeleteVirtualCard (klrid card) ok :: evs).
    split; [rewrite <- app_assoc; reflexivity|]. split; [exact Hev|]. split.
    { cbn [filter called_cards flat_map app map]. rewrite Hact.
      cbn [map]. f_equal. exact Hcalls. }
    split; [simpl; lia|].
    intros [|i] c Hc; cbn [nth_error] in *.
    + injection Hc as <-. eexists. split; [reflexivity|].
      split; [destruct ok; reflexivity|].
      split; [destruct ok; reflexivity|].
      split; [destruct ok; reflexivity|].
      split; [congruence|]. split; [|congruence].
      intros _ _. exists ok. split; [left; reflexivity|].
      destruct ok; reflexivity.
    + destruct (Hnth i c Hc)
        as (c' & H1 & H2 & H3 & H4 & H5 & H6 & H7).
      exists c'. repeat split; auto.
      * intros Ha Ht. destruct (H6 Ha Ht) as (ok' & Hin & Hs).
        exists ok'. split; [right; exact Hin|exact Hs].
      * intros Ha Ht. destruct (H7 Ha Ht) as (ok' & Hin & Hs).
        exists ok'. split; [right; exact Hin|exact Hs].
  - destruct IH as (evs & -> & Hev & Hcalls & Hlen & Hnth).
    exists (EvUpdateCardStatus (klrid card) T_FROZEN_PERMANENT ok :: evs).
    split; [rewrite <- app_assoc; reflexivity|]. split; [exact Hev|]. split.
    { cbn [filter called_cards flat_map app map]. rewrite Hact.
      cbn [map]. f_equal. exact Hcalls. }
    split; [simpl; lia|].
    intros [|i] c Hc; cbn [nth_error] in *.
    + injection Hc as <-. eexists. split; [reflexivity|].
      split; [destruct ok; reflexivity|].
      split; [destruct ok; reflexivity|].
      split; [destruct ok; reflexivity|].
      split; [congruence|]. split; [congruence|].
      intros _ _. exists ok. split; [left; reflexivity|].
      destruct ok; reflexivity.
    + destruct (Hnth i c Hc)
        as (c' & H1 & H2 & H3 & H4 & H5 & H6 & H7).
      exists c'. repeat split; auto.
      * intros Ha Ht. destruct (H6 Ha Ht) as (ok' & Hin & Hs).
        exists ok'. split; [right; exact Hin|exact Hs].
      * intros Ha Ht. destruct (H7 Ha Ht) as (ok' & Hin & Hs).
        exists ok'. split; [right; exact Hin|exact Hs].
Qed.

(** Every part of a run of [cancel_account]: the lock call, the rail
    loop and the card loop, with what each leaves. *)
Lemma cancel_account_run (g : Gateway) user log :
  exists spei' evs_spei cs' evs_cards,
    let evs_mobile :=
      if truthy (has_mobile_access user)
      then [EvLockMobileAccess (user_id user)
              (gw_lock_mobile_access g log (user_id user))]
      else [] in
    block_spei_loop g (user_id user) 0 (active_spei user) (log ++ evs_mobile)
    = (Ok spei', (log ++ evs_mobile) ++ evs_spei) /\
    cards_cancelled g ((log ++ evs_mobile) ++ evs_spei) (cards user) cs'
                    (((log ++ evs_mobile) ++ evs_spei) ++ evs_cards) /\
    cancel_account g user log
    = (Ok {| user_id := user_id user;
             parabilium_account_id := parabilium_account_id user;
             active_spei := spei';
             has_mobile_access :=
               if truthy (has_mobile_access user)
                  && gw_lock_mobile_access g log (user_id user)
               then Some false else has_mobile_access user;
             cards := cs' |},
       ((log ++ evs_mobile) ++ evs_spei) ++ evs_cards).
Proof.
  cbn zeta.
  set (evs_mobile := if truthy (has_mobile_access user)
                     then [EvLockMobileAccess (user_id user)
                             (gw_lock_mobile_access g log (user_id user))]
                     else []).
  destruct (@block_spei_loop_spec g (user_id user)
              (length (active_spei user)) 0 (active_spei user)
              (log ++ evs_mobile) (Nat.le_sub_l _ _))
    as (spei' & evs_spei & Hs & _).
  destruct (block_cards_loop_cancelled g (cards user) []
              ((log ++ evs_mobile) ++ evs_spei))
    as (cs' & log3 & Hc & Hrel).
  cbn [app length] in Hc.
  destruct (cards_cancelled_nth Hrel) as (evs_cards & -> & _).
  exists spei', evs_spei, cs', evs_cards.
  split; [exact Hs|]. split; [exact Hrel|].
  exact (cancel_account_compose g user log Hs Hc).
Qed.

Lemma active_not_final (s : card_status) :
  status_in s active_statuses = true ->
  s <> CANCELED /\ s <> FROZEN_PERMANENT.
Proof. destruct s; cbn; intros H; split; congruence. Qed.

(** C4. Run on any record, with any backend and from any log,
    [cancel_account] makes no card call before its card phase, and its
    card phase is [cards_cancelled] of the record's cards: every card
    stays in its place with its owner, id and type; a card outside the
    active subset is left as it is; for an active VIRTUAL card the
    delete call is made, and its status is CANCELED if the call
    succeeded and the prior status if it failed; for an active PHYSICAL
    card the freeze-permanent call is made, and its status is
    FROZEN_PERMANENT if the call succeeded and the prior status if it
    failed.  The card calls are those of the active cards, in card
    order. *)
Theorem cancel_account_card_statuses (g : Gateway) (user : UserAccount)
    (log : Log) :
  exists user' evs evs_cards,
    cancel_account g user log = (Ok user', (log ++ evs) ++ evs_cards) /\
    called_cards evs = [] /\
    forallb is_card_event evs_cards = true /\
    called_cards evs_cards
    = map klrid
          (filter (fun card =>
                     status_in (card_status_of card) active_statuses)
                  (cards user)) /\
    cards_cancelled g (log ++ evs) (cards user) (cards user')
                    ((log ++ evs) ++ evs_cards) /\
    length (cards user') = length (cards user) /\
    forall i card,
      nth_error (cards user) i = Some card ->
      exists card',
        nth_error (cards user') i = Some card' /\
        card_user_id card' = card_user_id card /\
        klrid card' = klrid card /\
        card_type_of card' = card_type_of card /\
        (status_in (card_status_of card) active_statuses = false ->
         card_status_of card' = card_status_of card) /\
        (status_in (card_status_of card) active_statuses = true ->
         card_type_of card = VIRTUAL ->
         exists ok,
           In (EvDeleteVirtualCard (klrid card) ok) evs_cards /\
           card_status_of card'
           = (if ok then CANCELED else card_status_of card) /\
           (card_status_of card' = CANCELED <-> ok = true) /\
           (card_status_of card' = card_status_of card <-> ok = false)) /\
        (status_in (card_status_of card) active_statuses = true ->
         card_type_of card = PHYSICAL ->
         exists ok,
           In (EvUpdateCardStatus (klrid card) T_FROZEN_PERMANENT ok)
              evs_cards /\
           card_status_of card'
           = (if ok then FROZEN_PERMANENT else card_status_of card) /\
           (card_status_of card' = FROZEN_PERMANENT <-> ok = true) /\
           (card_status_of card' = card_status_of card <-> ok = false)).
Proof.
  destruct (cancel_account_run g user log)
    as (spei' & evs_spei & cs' & evs_cards & Hs & Hrel & Heq).
  cbn zeta in Hs, Hrel, Heq.
  set (evs_mobile := if truthy (has_mobile_access user)
                     then [EvLockMobileAccess (user_id user)
                             (gw_lock_mobile_access g log (user_id user))]
                     else []) in *.
  destruct (@block_spei_loop_spec g (user_id user)
              (length (active_spei user)) 0 (active_spei user)
              (log ++ evs_mobile) (Nat.le_sub_l _ _))
    as (spei2 & evs2 & Hs2 & _ & _ & _ & Hev2).
  rewrite Hs in Hs2. injection Hs2 as _ He.
  apply app_inv_head in He. subst evs2.
  destruct (cards_cancelled_nth Hrel)
    as (evs3 & He3 & Hev3 & Hcalls & Hlen & Hnth).
  apply app_inv_head in He3. subst evs3.
  eexists _, (evs_mobile ++ evs_spei), evs_cards.
  rewrite app_assoc.
  split; [exact Heq|]. cbn [cards].
  split.
  { unfold called_cards. rewrite flat_map_app.
    fold (called_cards evs_spei). rewrite (called_cards_of_spei _ Hev2).
    rewrite app_nil_r. subst evs_mobile.
    destruct (truthy (has_mobile_access user)); reflexivity. }
  split; [exact Hev3|]. split; [exact Hcalls|].
  split; [exact Hrel|]. split; [exact Hlen|].
  intros i card Hc.
  destruct (Hnth i card Hc) as (card' & H1 & H2 & H3 & H4 & H5 & H6 & H7).
  exists card'. split; [exact H1|]. split; [exact H2|].
  split; [exact H3|]. split; [exact H4|].
  split; [intros Ha; rewrite (H5 Ha); reflexivity|].
  split.
  - intros Ha Ht. destruct (H6 Ha Ht) as (ok & Hin & Hst).
    destruct (active_not_final _ Ha) as [Hn1 Hn2].
    exists ok. split; [exact Hin|]. split; [exact Hst|].
    rewrite Hst. destruct ok; split; split; congruence.
  - intros Ha Ht. destruct (H7 Ha Ht) as (ok & Hin & Hst).
    destruct (active_not_final _ Ha) as [Hn1 Hn2].
    exists ok. split; [exact Hin|]. split; [exact Hst|].
    rewrite Hst. destruct ok; split; split; congruence.
Qed.

(** X25. [cancel_account] is its three phases run in order, each on the
    record and from the log that the one before it left: the mobile phase
    makes the lock call exactly when [has_mobile_access] is true and no
    other call; the rail phase then makes deactivation calls only, for the
    record's user and for rails of the record, the first rail among them
    when there is one, and for at least half of the rails; the card phase
    then makes card calls only, one for each active card, in card order. *)
Theorem cancel_account_phase_order (g : Gateway) (user : UserAccount)
    (log : Log) :
  exists user1 user2 user3 evs_spei evs_cards,
    let evs_mobile :=
      if truthy (has_mobile_access user)
      then [EvLockMobileAccess (user_id user)
              (gw_lock_mobile_access g log (user_id user))]
      else [] in
    block_mobile_user_account g user log = (Ok user1, log ++ evs_mobile) /\
    block_spei_user_account g user1 (log ++ evs_mobile)
    = (Ok user2, (log ++ evs_mobile) ++ evs_spei) /\
    block_cards_user_account g user2 ((log ++ evs_mobile) ++ evs_spei)
    = (Ok user3, ((log ++ evs_mobile) ++ evs_spei) ++ evs_cards) /\
    cancel_account g user log
    = (Ok user3, ((log ++ evs_mobile) ++ evs_spei) ++ evs_cards) /\
    Forall (fun ev => exists s ok, ev = EvBlockSpei (user_id user) s ok)
           evs_spei /\
    incl (called_rails evs_spei) (active_spei user) /\
    length (active_spei user) <= 2 * length evs_spei /\
    (forall s rest, active_spei user = s :: rest ->
                    exists tl, called_rails evs_spei = s :: tl) /\
    forallb is_card_event evs_cards = true /\
    called_cards evs_cards
    = map klrid
          (filter (fun card =>
                     status_in (card_status_of card) active_statuses)
                  (cards user)).
Proof.
  set (evs_mobile := if truthy (has_mobile_access user)
                     then [EvLockMobileAccess (user_id user)
                             (gw_lock_mobile_access g log (user_id user))]
                     else []).
  set (user1 := if truthy (has_mobile_access user)
                   && gw_lock_mobile_access g log (user_id user)
                then set_has_mobile_access user (Some false) else user).
  assert (Hm : block_mobile_user_account g user log
               = (Ok user1, log ++ evs_mobile)).
  { rewrite block_mobile_user_account_spec. subst user1 evs_mobile.
    destruct (truthy (has_mobile_access user)); cbn [andb].
    - reflexivity.
    - rewrite app_nil_r. reflexivity. }
  assert (Hid : user_id user1 = user_id user
                /\ active_spei user1 = active_spei user
                /\ cards user1 = cards user).
  { subst user1.
    destruct (truthy (has_mobile_access user)
              && gw_lock_mobile_access g log (user_id user));
      repeat split; reflexivity. }
  destruct Hid as (Hid & Hsp & Hcs).
  destruct (@block_spei_loop_account g (user_id user1)
              (length (active_spei user1)) 0 (active_spei user1)
              (log ++ evs_mobile) (Nat.le_sub_l _ _))
    as (spei' & evs_spei & Hs & _ & Hincl & Hall & Hcount).
  destruct (block_cards_loop_cancelled g (cards user1) []
              ((log ++ evs_mobile) ++ evs_spei))
    as (cs' & log3 & Hc & Hrel).
  cbn [app length] in Hc.
  destruct (cards_cancelled_nth Hrel)
    as (evs_cards & -> & Hev3 & Hcalls & _).
  exists user1, (set_active_spei user1 spei'),
    (set_cards (set_active_spei user1 spei') cs'), evs_spei, evs_cards.
  cbn zeta. fold evs_mobile.
  assert (H2 : block_spei_user_account g user1 (log ++ evs_mobile)
               = (Ok (set_active_spei user1 spei'),
                  (log ++ evs_mobile) ++ evs_spei)).
  { unfold block_spei_user_account. rewrite (bind_ok _ _ _ Hs).
    reflexivity. }
  assert (H3 : block_cards_user_account g (set_active_spei user1 spei')
                 ((log ++ evs_mobile) ++ evs_spei)
               = (Ok (set_cards (set_active_spei user1 spei') cs'),
                  ((log ++ evs_mobile) ++ evs_spei) ++ evs_cards)).
  { unfold block_cards_user_account, get_active_cards.
    cbn [cards set_active_spei]. rewrite (bind_ok _ _ _ Hc). reflexivity. }
  split; [exact Hm|]. split; [exact H2|]. split; [exact H3|].
  split.
  { unfold cancel_account. rewrite (bind_ok _ _ _ Hm), (bind_ok _ _ _ H2).
    exact H3. }
  rewrite Hid in Hall. rewrite Hsp in Hincl, Hcount, Hs. rewrite Hcs in Hcalls.
  split; [exact Hall|]. split; [exact Hincl|].
  split.
  { assert (Hb : length (blocked_rails evs_spei) <= length evs_spei).
    { clear. induction evs_spei as [|ev t IH]; [simpl; lia|].
      unfold blocked_rails in *. cbn [flat_map].
      rewrite length_app. destruct ev; cbn [length app]; try lia.
      destruct ok; cbn [length]; lia. }
    destruct Hcount as [H _]; [lia|]. simpl in H. lia. }
  split; [|split; [exact Hev3|exact Hcalls]].
  intros s rest Hrails.
  rewrite block_spei_loop_eq in Hs. rewrite Hrails in Hs.
  cbn [nth_error] in Hs. cbn zeta in Hs.
  destruct (gw_block_spei g (log ++ evs_mobile) (user_id user1) s) eqn:Hok.
  - destruct (list_remove s (s :: rest)) as [spei1|] eqn:Hrm.
    + destruct (@block_spei_loop_spec g (user_id user1)
                  (length spei1) 1 spei1
                  ((log ++ evs_mobile)
                     ++ [EvBlockSpei (user_id user1) s true])
                  (Nat.le_sub_l _ _))
        as (sp & evs & Hl & _).
      rewrite Hl in Hs. injection Hs as _ He.
      rewrite <- app_assoc in He. apply app_inv_head in He. subst evs_spei.
      eexists. reflexivity.
    + discriminate.
  - destruct (@block_spei_loop_spec g (user_id user1)
                (length (s :: rest)) 1 (s :: rest)
                ((log ++ evs_mobile)
                   ++ [EvBlockSpei (user_id user1) s false])
                (Nat.le_sub_l _ _))
      as (sp & evs & Hl & _).
    rewrite Hl in Hs. injection Hs as _ He.
    rewrite <- app_assoc in He. apply app_inv_head in He. subst evs_spei.
    eexists. reflexivity.
Qed.

(** ** [block_all], record by record *)

Lemma block_all_loop_in_turn (g : Gateway) :
  forall users log,
    holds_none users = false ->
    exists users' log',
      block_all_loop g users log = (Ok users', log') /\
      dict_keys users' = dict_keys users /\
      holds_none users' = false /\
      cancelled_in_turn g log (stored_records users) (stored_records users')
                        log' /\
      Forall2 (fun user user' =>
                 user_id user' = user_id user /\
                 parabilium_account_id user' = parabilium_account_id user)
              (stored_records users) (stored_records users').
Proof.
  induction users as [|[k [user|]] rest IH]; intros log Hn.
  - exists [], log. repeat split; constructor.
  - destruct (cancel_account_returns g user log)
      as (user' & evs1 & Hc & Hid & Hpid).
    destruct (IH (log ++ evs1) Hn)
      as (rest' & log' & Heq & Hk & Hn' & Hturn & Hall).
    exists ((k, Some user') :: rest'), log'.
    split; [|split; [|split; [|split]]].
    + cbn [block_all_loop].
      rewrite (bind_ok _ _ _ Hc), (bind_ok _ _ _ Heq). reflexivity.
    + unfold dict_keys in *. cbn [map fst]. rewrite Hk. reflexivity.
    + exact Hn'.
    + unfold stored_records, dict_values in *. cbn [map snd flat_map app].
      econstructor; [exact Hc|exact Hturn].
    + unfold stored_records, dict_values in *. cbn [map snd flat_map app].
      constructor; [split; assumption|exact Hall].
  - discriminate.
Qed.

(** X7. On a store that holds records only, [block_all] without refresh
    leaves the same keys in the same order, and under them the records of
    before cancelled in turn: the first by [cancel_account] from the log
    [block_all] started with, each next one by [cancel_account] from the
    log that the cancellation before it left; the last of these logs is
    the one [block_all] ends with.  Every record keeps its user id and
    external account id.  With refresh the store left, when [block_all]
    returns, is that same store. *)
Theorem block_all_cancels_every_record (g : Gateway) (users : Users)
    (log : Log) :
  holds_none users = false ->
  exists users' log',
    block_all g false users log = (Ok users', log') /\
    (forall users'' log'',
        block_all g true users log = (Ok users'', log'') ->
        users'' = users') /\
    dict_keys users' = dict_keys users /\
    holds_none users' = false /\
    cancelled_in_turn g log (stored_records users) (stored_records users')
                      log' /\
    Forall2 (fun user user' =>
               user_id user' = user_id user /\
               parabilium_account_id user' = parabilium_account_id user)
            (stored_records users) (stored_records users').
Proof.
  intros Hn.
  destruct (block_all_loop_in_turn g users log Hn)
    as (users' & log' & Heq & Hk & Hn' & Hturn & Hall).
  exists users', log'.
  assert (Hfalse : block_all g false users log = (Ok users', log')).
  { unfold block_all. rewrite (bind_ok _ _ _ Heq). reflexivity. }
  split; [exact Hfalse|]. split; [|auto].
  intros users'' log'' Htrue.
  destruct (block_all_refresh_leaves_users _ _ _ Htrue) as (log1 & H1).
  rewrite Hfalse in H1. injection H1 as <- _. reflexivity.
Qed.

Lemma block_all_cancels_every_record_witness :
  holds_none [("u1"%string, Some two_rails); ("u2"%string, Some three_cards)]
  = false /\
  exists users' log',
    block_all gw_all_ok false
      [("u1"%string, Some two_rails); ("u2"%string, Some three_cards)] []
    = (Ok users', log') /\
    dict_keys users' = ["u1"; "u2"]%string /\
    cancelled_in_turn gw_all_ok [] [two_rails; three_cards]
                      (stored_records users') log'.
Proof.
  split; [reflexivity|].
  destruct (@block_all_cancels_every_record gw_all_ok
              [("u1"%string, Some two_rails);
               ("u2"%string, Some three_cards)] [] eq_refl)
    as (users' & log' & Heq & _ & Hk & _ & Hturn & _).
  exists users', log'. split; [exact Heq|]. split; [exact Hk|exact Hturn].
Defined.

(** ** What a fetch writes *)

(** The loop body of [create_user_instance], call by call. *)
Lemma create_user_instance_body_eq (g : Gateway) mobile_access user
    instances log :
  create_user_instance_body g mobile_access user instances log
  = let res := gw_account_providers g log user in
    let log1 := log ++ [EvCheckAccountProviders user res] in
    match res with
    | None => (Ok (dict_set instances user None), log1)
    | Some accounts =>
        let pid := fst (scan_accounts accounts) in
        let cards_log2 :=
          if opt_string_eqb pid (Some "not_found"%string)
          then (Some [], log1)
          else (gw_cards g log1 pid,
                log1 ++ [EvCheckCards pid (gw_cards g log1 pid)]) in
        match fst cards_log2 with
        | None => (Ok (dict_set instances user None), snd cards_log2)
        | Some cards =>
            match dict_get mobile_access user with
            | None => (Raise KeyError, snd cards_log2)
            | Some mobile =>
                match pid with
                | None => (Raise ValidationError, snd cards_log2)
                | Some account_id =>
                    (Ok (dict_set instances user
                           (Some {| user_id := user;
                                    parabilium_account_id := account_id;
                                    active_spei := snd (scan_accounts accounts);
                                    has_mobile_access := mobile;
                                    cards := map (make_card user) cards |})),
                     snd cards_log2)
                end
            end
        end
    end.
Proof.
  unfold create_user_instance_body, bind, check_account_providers.
  rewrite call_eq. cbn zeta.
  destruct (gw_account_providers g log user) as [accounts|]; [|reflexivity].
  destruct (opt_string_eqb (fst (scan_accounts accounts))
                           (Some "not_found"%string)).
  - unfold ret at 1. cbn [fst snd].
    destruct (dict_get mobile_access user); [|reflexivity].
    destruct (fst (scan_accounts accounts)); reflexivity.
  - unfold check_cards. rewrite call_eq. cbn [fst snd].
    destruct (gw_cards g _ (fst (scan_accounts accounts))); [|reflexivity].
    destruct (dict_get mobile_access user); [|reflexivity].
    destruct (fst (scan_accounts accounts)); reflexivity.
Qed.

Lemma written_by_fetch_extend (g : Gateway) log log' user v evs :
  written_by_fetch g log log' user v ->
  no_lookup_of user evs ->
  written_by_fetch g log (log' ++ evs) user v.
Proof.
  intros [pre post -> Hacc Hpost
         |pre post accounts -> Hacc Hnf Hcards Hpost
         |pre post accounts acct -> Hacc Hpost Hid Hspei] Hevs.
  - apply written_no_listing with (pre := pre) (post := post ++ evs).
    + rewrite <- !app_assoc. reflexivity.
    + exact Hacc.
    + apply Forall_app. split; assumption.
  - apply written_no_cards
      with (pre := pre) (post := post ++ evs) (accounts := accounts).
    + rewrite <- !app_assoc. reflexivity.
    + exact Hacc.
    + exact Hnf.
    + exact Hcards.
    + apply Forall_app. split; assumption.
  - apply written_record
      with (pre := pre) (post := post ++ evs) (accounts := accounts).
    + rewrite <- !app_assoc. reflexivity.
    + exact Hacc.
    + apply Forall_app. split; assumption.
    + exact Hid.
    + exact Hspei.
Qed.

(** One turn of the loop: the calls it makes, and what it writes. *)
Lemma create_user_instance_body_written (g : Gateway) mobile_access user
    instances log pre :
  exists evs,
    forallb is_lookup_event evs = true /\
    (forall u, u <> user -> no_lookup_of u evs) /\
    ((exists v,
         create_user_instance_body g mobile_access user instances
                                   (log ++ pre)
         = (Ok (dict_set instances user v), (log ++ pre) ++ evs) /\
         written_by_fetch g log ((log ++ pre) ++ evs) user v) \/
     (exists e,
         create_user_instance_body g mobile_access user instances
                                   (log ++ pre)
         = (Raise e, (log ++ pre) ++ evs))).
Proof.
  rewrite create_user_instance_body_eq. cbn zeta.
  assert (Hone : forall res u, u <> user ->
            no_lookup_of u [EvCheckAccountProviders user res]).
  { intros res u Hne. constructor; [|constructor].
    intros res' H. injection H as H _. congruence. }
  assert (Htwo : forall res pid cs u, u <> user ->
            no_lookup_of u [EvCheckAccountProviders user res;
                            EvCheckCards pid cs]).
  { intros res pid cs u Hne. constructor; [|constructor; [|constructor]].
    - intros res' H. injection H as H _. congruence.
    - intros res' H. discriminate. }
  destruct (gw_account_providers g (log ++ pre) user) as [accounts|] eqn:Hacc.
  2:{ exists [EvCheckAccountProviders user None].
      split; [reflexivity|]. split; [intros u Hne; apply Hone; exact Hne|].
      left. exists None. split; [reflexivity|].
      apply written_no_listing with (pre := pre) (post := []);
        [reflexivity|exact Hacc|constructor]. }
  destruct (opt_string_eqb (fst (scan_accounts accounts))
                           (Some "not_found"%string)) eqn:Hnf.
  - cbn [fst snd].
    exists [EvCheckAccountProviders user (Some accounts)].
    split; [reflexivity|]. split; [intros u Hne; apply Hone; exact Hne|].
    destruct (dict_get mobile_access user) as [mobile|];
      [|right; exists KeyError; reflexivity].
    destruct (fst (scan_accounts accounts)) as [account_id|];
      [|right; exists ValidationError; reflexivity].
    left. eexists. split; [reflexivity|].
    apply written_record with (pre := pre) (post := []) (accounts := accounts);
      [reflexivity|exact Hacc|constructor|reflexivity|].
    apply scan_accounts_spei.
  - cbn [fst snd].
    exists [EvCheckAccountProviders user (Some accounts);
            EvCheckCards (fst (scan_accounts accounts))
              (gw_cards g ((log ++ pre)
                             ++ [EvCheckAccountProviders user (Some accounts)])
                        (fst (scan_accounts accounts)))].
    split; [reflexivity|]. split; [intros u Hne; apply Htwo; exact Hne|].
    rewrite <- (app_assoc (log ++ pre) [_] [_]). cbn [app].
    destruct (gw_cards g _ (fst (scan_accounts accounts)))
      as [cs|] eqn:Hcards.
    + destruct (dict_get mobile_access user) as [mobile|];
        [|right; exists KeyError; reflexivity].
      destruct (fst (scan_accounts accounts)) as [account_id|] eqn:Hpid;
        [|right; exists ValidationError; reflexivity].
      left. eexists. split; [reflexivity|].
      apply written_record
        with (pre := pre) (post := [EvCheckCards (Some account_id) (Some cs)])
             (accounts := accounts);
        [reflexivity|exact Hacc| |reflexivity|apply scan_accounts_spei].
      constructor; [intros res' H; discriminate|constructor].
    + left. exists None. split; [reflexivity|].
      apply written_no_cards
        with (pre := pre) (post := []) (accounts := accounts);
        [reflexivity|exact Hacc| |exact Hcards|constructor].
      intros H. rewrite H in Hnf. cbn in Hnf. discriminate.
Qed.

(** The per-user loop: whatever the outcome, it makes lookup calls only;
    when it returns, every entry it holds that was not there at the start
    was written by it. *)
Lemma create_user_instance_loop_written (g : Gateway) mobile_access log :
  forall l instances pre,
    exists r evs,
      for_each (create_user_instance_body g mobile_access) l instances
               (log ++ pre)
      = (r, (log ++ pre) ++ evs) /\
      forallb is_lookup_event evs = true /\
      forall instances',
        r = Ok instances' ->
        forall u v,
          dict_get instances' u = Some v ->
          (dict_get instances u = Some v /\ no_lookup_of u evs) \/
          written_by_fetch g log ((log ++ pre) ++ evs) u v.
Proof.
  induction l as [|user rest IH]; intros instances pre.
  - exists (Ok instances), []. rewrite app_nil_r.
    split; [reflexivity|]. split; [reflexivity|].
    intros instances' H u v Hget. injection H as <-.
    left. split; [exact Hget|constructor].
  - cbn [for_each].
    destruct (create_user_instance_body_written g mobile_access user
                instances log pre)
      as (evs1 & Hev1 & Hother & [(v1 & Hb & Hw)|(e & Hb)]).
    + destruct (IH (dict_set instances user v1) (pre ++ evs1))
        as (r & evs2 & Heq & Hev2 & Hrest).
      rewrite app_assoc in Heq.
      exists r, (evs1 ++ evs2).
      split; [rewrite (bind_ok _ _ _ Hb), Heq, <- !app_assoc; reflexivity|].
      split; [rewrite forallb_app, Hev1, Hev2; reflexivity|].
      intros instances' Hr u v Hget.
      rewrite (app_assoc (log ++ pre) evs1 evs2).
      destruct (Hrest instances' Hr u v Hget) as [(Hold & Hno)|Hnew].
      * destruct (String.eqb_spec user u) as [<-|Hne].
        -- rewrite dict_get_set_eq in Hold. injection Hold as <-.
           right. apply written_by_fetch_extend; assumption.
        -- rewrite dict_get_set_ne in Hold by exact Hne.
           left. split; [exact Hold|].
           apply Forall_app. split; [|exact Hno].
           apply Hother. congruence.
      * right. rewrite <- !app_assoc in Hnew. rewrite <- !app_assoc.
        exact Hnew.
    + exists (Raise e), evs1.
      split; [rewrite (bind_raise _ _ _ Hb); reflexivity|].
      split; [exact Hev1|].
      intros instances' H. discriminate.
Qed.

(** A fetch, whatever its outcome: the entitlement lookup in chunks of 10,
    then lookup calls only; when it returns, every entry was written by
    it. *)
Lemma create_user_instance_run (g : Gateway) ids log :
  exists mobile_access evs0 r evs1,
    check_mobile_access g ids 10 log = (Ok mobile_access, log ++ evs0) /\
    create_user_instance g ids log = (r, (log ++ evs0) ++ evs1) /\
    forallb is_enabled_event evs0 = true /\
    forallb is_lookup_event evs1 = true /\
    forall instances,
      r = Ok instances ->
      forall u v,
        dict_get instances u = Some v ->
        written_by_fetch g log ((log ++ evs0) ++ evs1) u v.
Proof.
  destruct (check_mobile_access_spec g ids 10 log)
    as (mobile_access & evs0 & Heq0 & Hev0 & _).
  destruct (create_user_instance_loop_written g mobile_access log ids [] evs0)
    as (r & evs1 & Heq & Hev1 & Hw).
  exists mobile_access, evs0, r, evs1.
  split; [exact Heq0|].
  split.
  { unfold create_user_instance. rewrite (bind_ok _ _ _ Heq0). exact Heq. }
  split; [exact Hev0|]. split; [exact Hev1|].
  intros instances Hr u v Hget.
  destruct (Hw instances Hr u v Hget) as [(Hold & _)|Hnew];
    [discriminate|exact Hnew].
Qed.

(** ** Chunks of the entitlement lookup, keys of a fetch *)









(** ** Rail ids of a fetched record *)

Lemma cancel_step_rails_incl (g : Gateway) user user' :
  cancel_step g user user' ->
  incl (active_spei user') (active_spei user).
Proof.
  intros [log log' H|log log' H|log log' H|log log' H].
  - rewrite block_mobile_user_account_spec in H.
    destruct (truthy (has_mobile_access user)).
    + destruct (gw_lock_mobile_access g log (user_id user));
        injection H as <- _; apply incl_refl.
    + injection H as <- _; apply incl_refl.
  - destruct (block_spei_user_account_spec g user log)
      as (spei' & evs & Heq & Hincl & _).
    rewrite Heq in H. injection H as <- _. exact Hincl.
  - destruct (block_cards_user_account_spec g user log)
      as (cs' & evs & Heq & _).
    rewrite Heq in H. injection H as <- _. apply incl_refl.
  - destruct (cancel_account_spec g user log)
      as (spei' & evs_spei & cs' & evs_cards & Heq & Hincl & _).
    cbn zeta in Heq. rewrite Heq in H. injection H as <- _. exact Hincl.
Qed.

Lemma cancel_steps_rails (g : Gateway) user user' :
  cancel_steps g user user' ->
  incl (active_spei user') (active_spei user) /\
  (NoDup (active_spei user) -> NoDup (active_spei user')).
Proof.
  induction 1 as [user|user user1 user2 Hstep _ [IHi IHn]].
  - split; [apply incl_refl|auto].
  - split.
    + intros x Hx. apply (cancel_step_rails_incl Hstep). apply IHi. exact Hx.
    + intros Hnd. apply IHn. exact (cancel_step_rails Hstep Hnd).
Qed.

(** C9 (amended). [active_spei] is a list.  The record that a fetch
    returns under a user has that user as its id, and its [active_spei] is
    the list of the SPEI ids of that user's own listing, in listing order:
    the listing that the backend gave to the last identity lookup of that
    user in this fetch.  Cancellation steps only take rails away.  So when
    that listing names no rail twice, the record has no repeated rail, and
    neither has any record obtained from it by cancellation steps. *)
Theorem fetched_rails_distinct (g : Gateway) (ids : list string)
    (log log' : Log) (instances : Users) (u : string)
    (acct acct' : UserAccount) :
  create_user_instance g ids log = (Ok instances, log') ->
  dict_get instances u = Some (Some acct) ->
  cancel_steps g acct acct' ->
  user_id acct = u /\
  exists pre post accounts,
    log' = (log ++ pre) ++ EvCheckAccountProviders u (Some accounts) :: post /\
    gw_account_providers g (log ++ pre) u = Some accounts /\
    no_lookup_of u post /\
    active_spei acct = listing_spei_ids accounts /\
    incl (active_spei acct') (active_spei acct) /\
    (NoDup (listing_spei_ids accounts) ->
     NoDup (active_spei acct) /\ NoDup (active_spei acct')).
Proof.
  intros Hfetch Hget Hsteps.
  destruct (create_user_instance_run g ids log)
    as (mobile_access & evs0 & r & evs1 & _ & Heq & _ & _ & Hw).
  rewrite Hfetch in Heq. injection Heq as <- ->.
  pose proof (Hw instances eq_refl u (Some acct) Hget) as Hwritten.
  destruct (cancel_steps_rails Hsteps) as (Hincl & Hnodup).
  inversion Hwritten as [| |pre post accounts acct0 Hlog Hacc Hpost Hid Hspei].
  subst acct0.
  split; [exact Hid|].
  exists pre, post, accounts.
  split; [exact Hlog|]. split; [exact Hacc|]. split; [exact Hpost|].
  split; [exact Hspei|]. split; [exact Hincl|].
  intros Hnd. rewrite <- Hspei in Hnd. split; [exact Hnd|exact (Hnodup Hnd)].
Qed.

Lemma fetched_rails_distinct_witness :
  exists instances log',
    create_user_instance gw_two_rails_refused ["u1"%string] []
    = (Ok instances, log') /\
    dict_get instances "u1" = Some (Some fetched_two_rails) /\
    cancel_steps gw_two_rails_refused fetched_two_rails cancelled_two_rails /\
    active_spei fetched_two_rails = ["r1"; "r2"]%string /\
    NoDup (active_spei fetched_two_rails) /\
    NoDup (active_spei cancelled_two_rails).
Proof.
  assert (Hsteps : cancel_steps gw_two_rails_refused fetched_two_rails
                                cancelled_two_rails).
  { eapply steps_cons; [|apply steps_nil].
    eapply (@step_cancel_account gw_two_rails_refused _ _ []).
    vm_compute. reflexivity. }
  eexists. eexists.
  split; [vm_compute; reflexivity|].
  split; [reflexivity|]. split; [exact Hsteps|]. split; [reflexivity|].
  destruct (@fetched_rails_distinct gw_two_rails_refused ["u1"%string] [] _ _
              "u1"%string fetched_two_rails cancelled_two_rails
              eq_refl eq_refl Hsteps)
    as (_ & pre & post & accounts & _ & _ & _ & Hspei & _ & Hnd).
  apply Hnd. rewrite <- Hspei.
  repeat constructor; simpl; intuition discriminate.
Defined.

(** ** A fetch while the entitlement service is down *)

(** X14. When every entitlement request fails, a fetch never raises
    [KeyError], and when it returns every requested user has an entry
    that the fetch wrote for it by its own lookups: [None] only where the
    user's identity lookup failed or the card lookup for the user's
    listed account failed, and otherwise a record, whose
    [has_mobile_access] is [None].  The failed entitlement requests make
    no record absent. *)
Theorem create_user_instance_entitlement_down (g : Gateway)
    (ids : list string) (log : Log) :
  (forall h batch, gw_is_enabled g h batch = None) ->
  exists r evs,
    create_user_instance g ids log = (r, log ++ evs) /\
    r <> Raise KeyError /\
    forall instances,
      r = Ok instances ->
      forall u,
        In u ids ->
        exists v,
          dict_get instances u = Some v /\
          written_by_fetch g log (log ++ evs) u v /\
          forall acct, v = Some acct -> has_mobile_access acct = None.
Proof.
  intros Hdown.
  destruct (@check_mobile_access_all_failed_aux g ids log Hdown)
    as (mobile_access & evs0 & Heq0 & Hin).
  destruct (create_user_instance_run g ids log)
    as (ma & evs0' & r & evs1 & Heq0' & Heq & _ & _ & Hw).
  rewrite Heq0 in Heq0'. injection Heq0' as <- He.
  apply app_inv_head in He. subst evs0'.
  exists r, (evs0 ++ evs1). rewrite app_assoc.
  split; [exact Heq|]. split.
  - intros ->. unfold create_user_instance in Heq.
    rewrite (bind_ok _ _ _ Heq0) in Heq.
    destruct (@create_user_instance_loop_raise g mobile_access ids []
                (log ++ evs0) KeyError _ Heq)
      as [(_ & u & Hu & Hnone)|(He & _)]; [|discriminate].
    rewrite (Hin u Hu) in Hnone. discriminate.
  - intros instances -> u Hu.
    destruct (@create_user_instance_ok_keys g ids log instances _ Heq)
      as (_ & Hkeys).
    destruct (dict_get_of_key _ _ (proj2 (Hkeys u) Hu)) as (v & Hv).
    exists v. split; [exact Hv|]. split; [exact (Hw instances eq_refl u v Hv)|].
    intros acct ->.
    destruct (@create_user_instance_ok g ids log instances _ Heq)
      as (ma' & evs0' & vs & Heq0' & Hvs & Hinst).
    rewrite Heq0 in Heq0'. injection Heq0' as <- _.
    rewrite Hinst in Hv.
    destruct (@dict_set_all_spec _ (combine ids vs)
                (@nil (string * option UserAccount)))
      as (_ & _ & Hget & _).
    destruct (Hget _ _ Hv) as [Hc|Hd]; [|discriminate].
    destruct (@Forall2_combine_in _ _ _ _ _ _ _ Hvs Hc)
      as (Hids & _ & _ & Hmob & _).
    rewrite (Hin u Hids) in Hmob. injection Hmob as <-. reflexivity.
Qed.

Lemma create_user_instance_entitlement_down_witness :
  (forall h batch, gw_is_enabled gw_entitlement_down h batch = None) /\
  exists instances evs acct,
    create_user_instance gw_entitlement_down ["u1"%string] []
    = (Ok instances, [] ++ evs) /\
    dict_get instances "u1" = Some (Some acct) /\
    has_mobile_access acct = None.
Proof.
  split; [reflexivity|].
  destruct (@create_user_instance_entitlement_down gw_entitlement_down
              ["u1"%string] [] (fun _ _ => eq_refl))
    as (r & evs & Heq & _ & Hok).
  destruct r as [instances|e].
  - destruct (Hok instances eq_refl "u1"%string (or_introl eq_refl))
      as (v & Hv & _ & Hmob).
    destruct v as [acct|].
    + exists instances, evs, acct.
      split; [exact Heq|]. split; [exact Hv|exact (Hmob acct eq_refl)].
    + exfalso.
      assert (H : fst (create_user_instance gw_entitlement_down
                         ["u1"%string] []) = Ok instances)
        by (rewrite Heq; reflexivity).
      vm_compute in H. injection H as <-. discriminate Hv.
  - exfalso.
    assert (H : fst (create_user_instance gw_entitlement_down
                       ["u1"%string] []) = Raise e)
      by (rewrite Heq; reflexivity).
    vm_compute in H. discriminate H.
Defined.
